(** * simple-logrus-formatter: a shallow embedding of [pkg/formatter/formatter.go]

    The formatter renders one logrus entry as one text line.  The Go code
    writes into a [bytes.Buffer]; here the buffer is a [string] (a sequence
    of 8-bit bytes) threaded through the writer functions.  A Go run-time
    panic (the slice [level[:4]] out of range) is an explicit outcome. *)

From Stdlib Require Import ZArith Ascii DecimalString.
From stdpp Require Import base option list sorting strings gmap fin_maps.

(** ** Go values *)

(** Bytes with a meaning in the formatter. *)
Definition ESC : ascii := "027"%char.
Definition LF : ascii := "010"%char.

(** A call either returns or panics. *)
Inductive outcome (A : Type) : Type :=
  | Returned (a : A)
  | Panicked (reason : string).
Arguments Returned {A} a.
Arguments Panicked {A} reason.

Definition outcome_bind {A B} (o : outcome A) (k : A → outcome B) : outcome B :=
  match o with
  | Returned a => k a
  | Panicked r => Panicked r
  end.

Notation "x ← o ;;; k" := (outcome_bind o (λ x, k))
  (at level 20, o at level 100, k at level 200, right associativity,
   format "x  ←  o ;;;  '/' k").

(** The Go [error] interface; [err_nil] is the nil error. *)
Definition error : Type := option string.
Definition err_nil : error := None.

(** A slice or string expression [s[:hi]]: panics when [hi > len(s)]. *)
Definition slice_to (s : string) (hi : nat) : outcome string :=
  if decide (hi ≤ String.length s) then Returned (String.substring 0 hi s)
  else Panicked "slice bounds out of range".

(** Bytewise helpers on strings. *)
Fixpoint string_forallb (p : ascii → bool) (s : string) : bool :=
  match s with
  | EmptyString => true
  | String c s' => p c && string_forallb p s'
  end.

Fixpoint string_map (g : ascii → ascii) (s : string) : string :=
  match s with
  | EmptyString => EmptyString
  | String c s' => String (g c) (string_map g s')
  end.

Definition contains_byte (c : ascii) (s : string) : bool :=
  negb (string_forallb (λ x, negb (Ascii.eqb x c)) s).

Fixpoint last_byte (s : string) : option ascii :=
  match s with
  | EmptyString => None
  | String c EmptyString => Some c
  | String _ s' => last_byte s'
  end.

(** Number of bytes equal to [c] at the very end of [s]. *)
Fixpoint trailing_count (c : ascii) (s : string) : nat :=
  match s with
  | EmptyString => 0
  | String x s' =>
      if string_forallb (Ascii.eqb c) s'
      then (if Ascii.eqb c x then S (String.length s') else String.length s')
      else trailing_count c s'
  end.

(** Number of positions of [s] at which [pat] occurs. *)
Fixpoint occurrences (pat s : string) : nat :=
  (if String.prefix pat s then 1 else 0) +
  match s with
  | EmptyString => 0
  | String _ s' => occurrences pat s'
  end.

(** [%d] of package fmt: the decimal digits, with a minus sign if negative. *)
Definition fmt_d (z : Z) : string := NilZero.string_of_int (Z.to_int z).

(** ** Package strings *)

(** [c < utf8.RuneSelf] *)
Definition is_ascii_byte (c : ascii) : bool := (nat_of_ascii c <? 128)%nat.

(** The ASCII branch of [strings.ToUpper]: ['a'..'z'] lose [('a' - 'A')]. *)
Definition upper_byte (c : ascii) : ascii :=
  let n := nat_of_ascii c in
  if (97 <=? n)%nat && (n <=? 122)%nat then ascii_of_nat (n - 32) else c.

(** The table [asciiSpace] of package strings. *)
Definition asciiSpace (c : ascii) : bool :=
  match c with
  | "009" | "010" | "011" | "012" | "013" | " " => true
  | _ => false
  end%char.

(** What the formatter takes from the Go run time and its libraries and
    what this development leaves open: the time and value types and their
    printing, and the Unicode tables of [strings.ToUpper], which are reached
    only on input with a byte above 0x7f. *)
Class Runtime := {
  time_Time : Type;
  (** a value of type [interface{}], as held by [logrus.Fields] *)
  Value : Type;
  (** the nil interface, read from a map at a missing key *)
  nil_Value : Value;
  (** [t.Format(layout)] *)
  Time_Format : time_Time → string → string;
  (** the verb [%v] *)
  fmt_v : Value → string;
  (** [strings.Map(unicode.ToUpper, s)] *)
  unicode_ToUpper : string → string;
}.

(** [for k := range m]: Go visits the keys of a map in an order of the run
    time's choosing; every key once. *)
Class MapRange := {
  range_keys : ∀ {V : Type}, gmap string V → list string;
  range_keys_NoDup : ∀ V (m : gmap string V), NoDup (range_keys m);
  range_keys_elem : ∀ V (m : gmap string V) k,
    k ∈ range_keys m ↔ is_Some (m !! k);
}.

(** [time.TimeOnly] *)
Definition time_TimeOnly : string := "15:04:05".

(** ** Package unicode/utf8 *)

(** A code point, Go's [rune]. *)
Definition rune : Type := N.
Definition RuneError : rune := 0xFFFD%N.
Definition RuneSelf : N := 0x80%N.
Definition UTFMax : Z := 4.

Definition byte_val (c : ascii) : N := N_of_ascii c.

(** [s[i:]] and [s[:i]] for indices within the string. *)
Fixpoint string_drop (n : nat) (s : string) : string :=
  match n, s with
  | S n, String _ s' => string_drop n s'
  | _, _ => s
  end.

Fixpoint string_take (n : nat) (s : string) : string :=
  match n, s with
  | S n, String c s' => String c (string_take n s')
  | _, _ => EmptyString
  end.

(** [s[i]] *)
Definition byte_at (s : string) (i : nat) : N :=
  match String.get i s with
  | Some c => byte_val c
  | None => 0%N
  end.

(** The entries of the table [first]: the high nibble indexes
    [acceptRanges], the low nibble is the length of the sequence. *)
Definition utf8_xx : N := 0xF1%N.
Definition utf8_as : N := 0xF0%N.
Definition utf8_s1 : N := 0x02%N.
Definition utf8_s2 : N := 0x13%N.
Definition utf8_s3 : N := 0x03%N.
Definition utf8_s4 : N := 0x23%N.
Definition utf8_s5 : N := 0x34%N.
Definition utf8_s6 : N := 0x04%N.
Definition utf8_s7 : N := 0x44%N.

(** [first[b]] *)
Definition utf8_first (b : N) : N :=
  (if b <? 0x80 then utf8_as
   else if b <? 0xC2 then utf8_xx
   else if b <? 0xE0 then utf8_s1
   else if b =? 0xE0 then utf8_s2
   else if b <? 0xED then utf8_s3
   else if b =? 0xED then utf8_s4
   else if b <? 0xF0 then utf8_s3
   else if b =? 0xF0 then utf8_s5
   else if b <? 0xF4 then utf8_s6
   else if b =? 0xF4 then utf8_s7
   else utf8_xx)%N.

Definition locb : N := 0x80%N.
Definition hicb : N := 0xBF%N.
Definition maskx : N := 0x3F%N.
Definition mask2 : N := 0x1F%N.
Definition mask3 : N := 0x0F%N.
Definition mask4 : N := 0x07%N.

(** [acceptRanges[i]]: the lowest and highest second byte. *)
Definition acceptRanges (i : N) : N * N :=
  (match i with
   | 0 => (locb, hicb)
   | 1 => (0xA0, hicb)
   | 2 => (locb, 0x9F)
   | 3 => (0x90, hicb)
   | 4 => (locb, 0x8F)
   | _ => (0, 0)
   end)%N.

(** [utf8.DecodeRuneInString]: the first rune of [s] and its width; an
    invalid sequence gives [(RuneError, 1)]. *)
Definition DecodeRuneInString (s : string) : rune * nat :=
  match s with
  | EmptyString => (RuneError, 0)
  | String c0 t0 =>
      let n := String.length s in
      let s0 := byte_val c0 in
      let x := utf8_first s0 in
      if (utf8_as <=? x)%N then
        (* [x] is [as] or [xx]; the mask made of its lowest bit selects *)
        ((if N.testbit x 0 then RuneError else s0), 1)
      else
        let sz := N.to_nat (N.land x 7) in
        let accept := acceptRanges (N.shiftr x 4) in
        if (n <? sz)%nat then (RuneError, 1) else
        match t0 with
        | EmptyString => (RuneError, 1)
        | String c1 t1 =>
            let s1 := byte_val c1 in
            if ((s1 <? accept.1) || (accept.2 <? s1))%N then (RuneError, 1)
            else if (sz <=? 2)%nat then
              (N.lor (N.shiftl (N.land s0 mask2) 6) (N.land s1 maskx), 2)
            else
              match t1 with
              | EmptyString => (RuneError, 1)
              | String c2 t2 =>
                  let s2 := byte_val c2 in
                  if ((s2 <? locb) || (hicb <? s2))%N then (RuneError, 1)
                  else if (sz <=? 3)%nat then
                    (N.lor (N.lor (N.shiftl (N.land s0 mask3) 12)
                                  (N.shiftl (N.land s1 maskx) 6))
                           (N.land s2 maskx), 3)
                  else
                    match t2 with
                    | EmptyString => (RuneError, 1)
                    | String c3 _ =>
                        let s3 := byte_val c3 in
                        if ((s3 <? locb) || (hicb <? s3))%N then (RuneError, 1)
                        else
                          (N.lor (N.lor (N.lor (N.shiftl (N.land s0 mask4) 18)
                                               (N.shiftl (N.land s1 maskx) 12))
                                        (N.shiftl (N.land s2 maskx) 6))
                                 (N.land s3 maskx), 4)
                    end
              end
        end
  end.

(** [utf8.RuneStart] *)
Definition RuneStart (b : N) : bool := negb (N.land b 0xC0 =? 0x80)%N.

(** The loop [for start--; start >= lim; start--] of
    [DecodeLastRuneInString], entered with [start] already decremented. *)
Fixpoint rune_start_loop (s : string) (lim : Z) (fuel : nat) (start : Z) : Z :=
  match fuel with
  | 0 => start
  | S fuel =>
      if (start <? lim)%Z then start
      else if RuneStart (byte_at s (Z.to_nat start)) then start
      else rune_start_loop s lim fuel (start - 1)
  end.

(** [utf8.DecodeLastRuneInString] *)
Definition DecodeLastRuneInString (s : string) : rune * nat :=
  let end_ := Z.of_nat (String.length s) in
  if (end_ =? 0)%Z then (RuneError, 0)
  else
    let start := (end_ - 1)%Z in
    let r := byte_at s (Z.to_nat start) in
    if (r <? RuneSelf)%N then (r, 1)
    else
      let lim := (end_ - UTFMax)%Z in
      let lim := if (lim <? 0)%Z then 0%Z else lim in
      let start := rune_start_loop s lim 4 (start - 1) in
      let start := if (start <? 0)%Z then 0%Z else start in
      let '(r, size) :=
        DecodeRuneInString
          (string_take (Z.to_nat (end_ - start)) (string_drop (Z.to_nat start) s)) in
      if (start + Z.of_nat size =? end_)%Z then (r, size) else (RuneError, 1).

(** ** Package unicode *)

Definition MaxLatin1 : rune := 0xFF%N.

(** The 16-bit ranges of the table [White_Space], each with its stride,
    and the number of those that end within Latin-1. *)
Definition White_Space_R16 : list (N * N * N) :=
  [(0x0009, 0x000d, 1); (0x0020, 0x0085, 101); (0x00a0, 0x1680, 5600);
   (0x2000, 0x200a, 1); (0x2028, 0x2029, 1); (0x202f, 0x205f, 48);
   (0x3000, 0x3000, 1)]%N.
Definition White_Space_LatinOffset : nat := 2.

(** Membership of a rune in a list of ranges ([unicode.is16]; the table
    has no 32-bit ranges). *)
Definition in_ranges (ranges : list (N * N * N)) (r : rune) : bool :=
  existsb (λ '(lo, hi, stride),
             (lo <=? r)%N && (r <=? hi)%N && ((r - lo) mod stride =? 0)%N)
          ranges.

(** [unicode.IsSpace] *)
Definition unicode_IsSpace (r : rune) : bool :=
  if (r <=? MaxLatin1)%N then
    ((r =? 0x09) || (r =? 0x0A) || (r =? 0x0B) || (r =? 0x0C) || (r =? 0x0D)
     || (r =? 0x20) || (r =? 0x85) || (r =? 0xA0))%N
  else in_ranges (drop White_Space_LatinOffset White_Space_R16) r.

(** ** Package strings, the functions behind [TrimSpace] *)

(** [indexFunc]: the loop [for i, r := range s] over [rest = s[i:]];
    [None] is the result -1. *)
Fixpoint indexFunc_loop (fuel : nat) (rest : string) (i : nat)
    (f : rune → bool) (truth : bool) : option nat :=
  match fuel with
  | 0 => None
  | S fuel =>
      match rest with
      | EmptyString => None
      | _ =>
          let '(r, size) := DecodeRuneInString rest in
          if Bool.eqb (f r) truth then Some i
          else indexFunc_loop fuel (string_drop size rest) (i + size) f truth
      end
  end.

Definition indexFunc (s : string) (f : rune → bool) (truth : bool) : option nat :=
  indexFunc_loop (String.length s) s 0 f truth.

(** [lastIndexFunc]: the loop [for i := len(s); i > 0; ] *)
Fixpoint lastIndexFunc_loop (fuel : nat) (s : string) (i : nat)
    (f : rune → bool) (truth : bool) : option nat :=
  match fuel with
  | 0 => None
  | S fuel =>
      if (0 <? i)%nat then
        let '(r, size) := DecodeLastRuneInString (string_take i s) in
        let i := i - size in
        if Bool.eqb (f r) truth then Some i
        else lastIndexFunc_loop fuel s i f truth
      else None
  end.

Definition lastIndexFunc (s : string) (f : rune → bool) (truth : bool)
    : option nat :=
  lastIndexFunc_loop (String.length s) s (String.length s) f truth.

(** [strings.TrimLeftFunc] *)
Definition strings_TrimLeftFunc (s : string) (f : rune → bool) : string :=
  match indexFunc s f false with
  | None => EmptyString
  | Some i => string_drop i s
  end.

(** [strings.TrimRightFunc] *)
Definition strings_TrimRightFunc (s : string) (f : rune → bool) : string :=
  let i :=
    match lastIndexFunc s f false with
    | Some i =>
        if (RuneSelf <=? byte_at s i)%N then
          let '(_, wid) := DecodeRuneInString (string_drop i s) in i + wid
        else i + 1
    | None => 0
    end in
  string_take i s.

(** [strings.TrimFunc] *)
Definition strings_TrimFunc (s : string) (f : rune → bool) : string :=
  strings_TrimRightFunc (strings_TrimLeftFunc s f) f.

Section strings.
Context `{Runtime}.

(** [strings.ToUpper]: an ASCII-only string is mapped bytewise (Go returns
    the string itself when it has no lower-case letter, which is the same
    result), any other goes through the Unicode tables. *)
Definition strings_ToUpper (s : string) : string :=
  if string_forallb is_ascii_byte s then string_map upper_byte s
  else unicode_ToUpper s.

(** First loop of [strings.TrimSpace]: skip ASCII space from the left;
    returns [s[start:]] and whether a byte [>= utf8.RuneSelf] stopped it. *)
Fixpoint trim_scan_left (s : string) : string * bool :=
  match s with
  | EmptyString => (EmptyString, false)
  | String c s' =>
      if negb (is_ascii_byte c) then (s, true)
      else if asciiSpace c then trim_scan_left s'
      else (s, false)
  end.

(** Second loop: skip ASCII space from the right; returns [s[:stop]] and
    whether a byte [>= utf8.RuneSelf] stopped it. *)
Fixpoint trim_scan_right (s : string) : string * bool :=
  match s with
  | EmptyString => (EmptyString, false)
  | String c s' =>
      match trim_scan_right s' with
      | (EmptyString, _) =>
          if negb (is_ascii_byte c) then (String c EmptyString, true)
          else if asciiSpace c then (EmptyString, false)
          else (String c EmptyString, false)
      | (t, slow) => (String c t, slow)
      end
  end.

(** [strings.TrimSpace]: the ASCII loops, and the Unicode-aware functions
    for what starts or ends with a byte above 0x7f. *)
Definition strings_TrimSpace (s : string) : string :=
  match trim_scan_left s with
  | (rest, true) => strings_TrimFunc rest unicode_IsSpace
  | (rest, false) =>
      match trim_scan_right rest with
      | (kept, true) => strings_TrimRightFunc kept unicode_IsSpace
      | (kept, false) => kept
      end
  end.
End strings.

(** [sort.Strings]: increasing bytewise order.  Two strings that compare
    equal are the same string, so the sorted list does not depend on the
    sorting algorithm. *)
Definition sort_Strings (l : list string) : list string :=
  merge_sort String.le l.

(** ** Package logrus *)

(** [type Level uint32] *)
Definition logrus_Level : Type := N.
Definition PanicLevel : logrus_Level := 0%N.
Definition FatalLevel : logrus_Level := 1%N.
Definition ErrorLevel : logrus_Level := 2%N.
Definition WarnLevel : logrus_Level := 3%N.
Definition InfoLevel : logrus_Level := 4%N.
Definition DebugLevel : logrus_Level := 5%N.
Definition TraceLevel : logrus_Level := 6%N.

(** The method [String] of a level (the [fmt.Stringer] interface). *)
Class LevelStringer := { Level_String : logrus_Level → string }.

(** logrus' own names: [MarshalText], and "unknown" when that fails. *)
Definition logrus_Level_String (level : logrus_Level) : string :=
  if (level =? TraceLevel)%N then "trace"
  else if (level =? DebugLevel)%N then "debug"
  else if (level =? InfoLevel)%N then "info"
  else if (level =? WarnLevel)%N then "warning"
  else if (level =? ErrorLevel)%N then "error"
  else if (level =? FatalLevel)%N then "fatal"
  else if (level =? PanicLevel)%N then "panic"
  else "unknown".

Definition logrus_names : LevelStringer :=
  {| Level_String := logrus_Level_String |}.

(** [runtime.Frame], the part the formatter reads. *)
Record Frame := { File : string; Line : Z; Function : string }.

(** [logrus.Logger], the part [HasCaller] reads. *)
Record logrus_Logger := { ReportCaller : bool }.

(** [logrus.Entry]; a nil pointer is [None]. *)
Record Entry `{Runtime} := {
  Logger : option logrus_Logger;
  Data : gmap string Value;
  Time : time_Time;
  Level : logrus_Level;
  Caller : option Frame;
  Message : string;
}.

(** [entry.HasCaller()]: a logger that reports callers, and a frame. *)
Definition HasCaller `{Runtime} (entry : Entry) : bool :=
  match Logger entry with
  | Some logger => ReportCaller logger && bool_decide (is_Some (Caller entry))
  | None => false
  end.

(** ** Package formatter *)

(** [FieldsOrder] is a slice: [None] is the nil slice. *)
Record Formatter := {
  FieldsOrder : option (list string);
  TimestampFormat : string;
  HideKeys : bool;
  NoColors : bool;
  DisableTrimMessages : bool;
}.

Definition colorNone : Z := 0.
Definition colorBlack : Z := 30.
Definition colorRed : Z := 31.
Definition colorGreen : Z := 32.
Definition colorYellow : Z := 33.
Definition colorBlue : Z := 34.
Definition colorMagenta : Z := 35.
Definition colorCyan : Z := 36.
Definition colorGray : Z := 37.

Definition getColorByLevel (level : logrus_Level) : Z :=
  if (level =? DebugLevel)%N || (level =? TraceLevel)%N then colorGray
  else if (level =? WarnLevel)%N then colorYellow
  else if (level =? ErrorLevel)%N || (level =? FatalLevel)%N
          || (level =? PanicLevel)%N then colorRed
  else colorCyan.

(** [fmt.Sprintf("\x1b[%dm", n)] *)
Definition sgr (n : Z) : string := String ESC "[" +:+ fmt_d n +:+ "m".

Section formatter.
Context `{Runtime} `{MapRange} `{LevelStringer}.

(** [entry.Data[field]] *)
Definition Data_at (entry : Entry) (field : string) : Value :=
  default nil_Value (Data entry !! field).

Definition writeField (f : Formatter) (b : string) (entry : Entry)
    (field : string) : string :=
  let b :=
    if HideKeys f then b +:+ ("[" +:+ fmt_v (Data_at entry field) +:+ "]")
    else b +:+ ("[" +:+ field +:+ ":" +:+ fmt_v (Data_at entry field) +:+ "]")
  in
  b +:+ " ".

(** [HasCaller] has checked that [entry.Caller] is not nil. *)
Definition writeCaller (f : Formatter) (b : string) (entry : Entry) : string :=
  if HasCaller entry then
    match Caller entry with
    | Some c =>
        b +:+ (" (" +:+ File c +:+ ":" +:+ fmt_d (Line c) +:+ " "
               +:+ Function c +:+ ")")
    | None => b
    end
  else b.

Definition writeFields (f : Formatter) (b : string) (entry : Entry) : string :=
  if decide (size (Data entry) ≠ 0) then
    let fields :=
      foldl (λ fields field, fields ++ [field]) [] (range_keys (Data entry)) in
    let fields := sort_Strings fields in
    foldl (λ b field, writeField f b entry field) b fields
  else b.

(** One turn of the loop over [f.FieldsOrder]; the state is
    [(foundFieldsMap, length, b)]. *)
Definition ordered_step (f : Formatter) (entry : Entry)
    (st : gmap string bool * Z * string) (field : string)
    : gmap string bool * Z * string :=
  let '(foundFieldsMap, length, b) := st in
  match Data entry !! field with
  | Some _ => (<[field := true]> foundFieldsMap, (length - 1)%Z,
               writeField f b entry field)
  | None => st
  end.

Definition writeOrderedFields (f : Formatter) (b : string) (entry : Entry)
    : string :=
  let length := Z.of_nat (size (Data entry)) in
  let foundFieldsMap : gmap string bool := ∅ in
  let '(foundFieldsMap, length, b) :=
    foldl (ordered_step f entry) (foundFieldsMap, length, b)
          (default [] (FieldsOrder f)) in
  if decide (0 < length)%Z then
    let notFoundFields :=
      foldl (λ notFoundFields field,
               if decide (default false (foundFieldsMap !! field) = false)
               then notFoundFields ++ [field] else notFoundFields)
            [] (range_keys (Data entry)) in
    let notFoundFields := sort_Strings notFoundFields in
    foldl (λ b field, writeField f b entry field) b notFoundFields
  else b.

Definition Format (f : Formatter) (entry : Entry) : outcome (string * error) :=
  let levelColor := getColorByLevel (Level entry) in
  let timestampFormat :=
    if decide (TimestampFormat f = "") then time_TimeOnly
    else TimestampFormat f in
  let b := "" in
  let b := b +:+ "[" in
  let b := b +:+ Time_Format (Time entry) timestampFormat in
  let b := b +:+ "]" in
  let level := strings_ToUpper (Level_String (Level entry)) in
  let b := if negb (NoColors f) then b +:+ sgr levelColor else b in
  let b := b +:+ " [" in
  level4 ← slice_to level 4 ;;;
  let b := b +:+ level4 in
  let b := b +:+ "]" in
  let b := b +:+ " " in
  let b :=
    match FieldsOrder f with
    | None => writeFields f b entry
    | Some _ => writeOrderedFields f b entry
    end in
  let b := if negb (NoColors f) then b +:+ sgr colorNone else b in
  let b :=
    if DisableTrimMessages f then b +:+ Message entry
    else b +:+ strings_TrimSpace (Message entry) in
  let b := writeCaller f b entry in
  let b := b +:+ String LF "" in
  Returned (b, err_nil).
End formatter.

(** ** The pieces of a rendered line *)

Section segments.
Context `{Runtime} `{MapRange} `{LevelStringer}.

(** The text [Format] puts between the brackets of the time stamp. *)
Definition timestamp_text (f : Formatter) (entry : Entry) : string :=
  Time_Format (Time entry)
    (if decide (TimestampFormat f = "") then time_TimeOnly
     else TimestampFormat f).

(** The upper-case level name, before it is cut. *)
Definition level_upper (entry : Entry) : string :=
  strings_ToUpper (Level_String (Level entry)).

(** What the field writers add to a buffer. *)
Definition field_segment (f : Formatter) (entry : Entry) : string :=
  match FieldsOrder f with
  | None => writeFields f "" entry
  | Some _ => writeOrderedFields f "" entry
  end.

(** What [Format] writes for the message. *)
Definition message_segment (f : Formatter) (msg : string) : string :=
  if DisableTrimMessages f then msg else strings_TrimSpace msg.

(** What [writeCaller] adds to a buffer. *)
Definition caller_segment (f : Formatter) (entry : Entry) : string :=
  writeCaller f "" entry.

(** One field as [writeField] prints it. *)
Definition field_text (f : Formatter) (entry : Entry) (field : string) : string :=
  (if HideKeys f then "[" +:+ fmt_v (Data_at entry field) +:+ "]"
   else "[" +:+ field +:+ ":" +:+ fmt_v (Data_at entry field) +:+ "]") +:+ " ".

(** The fields of a list of names, printed one after the other. *)
Fixpoint fields_text (f : Formatter) (entry : Entry) (names : list string) : string :=
  match names with
  | [] => ""
  | field :: names => field_text f entry field +:+ fields_text f entry names
  end.
(** The names of [order] that the record has, in the sequence of [order]. *)
Definition present_in (entry : Entry) (order : list string) : list string :=
  filter (λ field, is_Some (Data entry !! field)) order.

(** The names of the record that [order] does not list, sorted. *)
Definition remaining_fields (entry : Entry) (order : list string) : list string :=
  sort_Strings (filter (λ field, field ∉ order) (range_keys (Data entry))).
End segments.

Section lines.
Context `{Runtime} `{MapRange} `{LevelStringer}.

(** What [Format] writes before the message ... *)
Definition line_head (f : Formatter) (entry : Entry) : string :=
  "[" +:+ timestamp_text f entry +:+ "]"
  +:+ (if NoColors f then "" else sgr (getColorByLevel (Level entry)))
  +:+ " [" +:+ String.substring 0 4 (level_upper entry) +:+ "]" +:+ " "
  +:+ field_segment f entry
  +:+ (if NoColors f then "" else sgr colorNone).

(** ... and after it. *)
Definition line_tail (f : Formatter) (entry : Entry) : string :=
  caller_segment f entry +:+ String LF "".

(** The line [Format] builds when the level name is long enough. *)
Definition rendered_line (f : Formatter) (entry : Entry) : string :=
  line_head f entry +:+ message_segment f (Message entry) +:+ line_tail f entry.

(** The same record with another message. *)
Definition with_Message (msg : string) (entry : Entry) : Entry :=
  {| Logger := Logger entry; Data := Data entry;
     Time := Time entry; Level := Level entry; Caller := Caller entry;
     Message := msg |}.

(** The same record with the fields [fields[k] = v] assigned one after
    the other to an empty map. *)
Definition with_fields (kvs : list (string * Value)) (entry : Entry) : Entry :=
  {| Logger := Logger entry;
     Data := foldl (λ m kv, <[kv.1 := kv.2]> m) ∅ kvs;
     Time := Time entry; Level := Level entry; Caller := Caller entry;
     Message := Message entry |}.

(** Each field of the record is rendered once: the names of the order
    list first, the others after them, sorted. *)
Definition each_field_once (f : Formatter) (entry : Entry) : Prop :=
  ∃ names,
    field_segment f entry = fields_text f entry names
    ∧ names = present_in entry (default [] (FieldsOrder f))
              ++ remaining_fields entry (default [] (FieldsOrder f))
    ∧ NoDup names
    ∧ ∀ k, k ∈ names ↔ is_Some (Data entry !! k).
End lines.

(** A line that ends with one line feed and has the message text once. *)
Definition one_line_one_message (out msg : string) : Prop :=
  trailing_count LF out = 1 ∧ occurrences msg out = 1.

(** The set of ASCII white space, for strings of ASCII bytes. *)
Definition all_space (s : string) : bool := string_forallb asciiSpace s.

Definition first_byte (s : string) : option ascii :=
  match s with
  | EmptyString => None
  | String c _ => Some c
  end.

(** [seg] is [s] without its leading and trailing white space. *)
Definition stripped (s seg : string) : Prop :=
  ∃ pre post,
    s = pre +:+ seg +:+ post
    ∧ all_space pre = true ∧ all_space post = true
    ∧ (∀ c, first_byte seg = Some c → asciiSpace c = false)
    ∧ (∀ c, last_byte seg = Some c → asciiSpace c = false).

(** ** White space as text *)

(** UTF-8: the bytes of a code point. *)
Definition utf8_encode (r : rune) : string :=
  let b (n : N) := ascii_of_N n in
  (if r <? 0x80 then String (b r) ""
   else if r <? 0x800 then
     String (b (N.lor 0xC0 (N.shiftr r 6)))
       (String (b (N.lor 0x80 (N.land r 0x3F))) "")
   else if r <? 0x10000 then
     String (b (N.lor 0xE0 (N.shiftr r 12)))
       (String (b (N.lor 0x80 (N.land (N.shiftr r 6) 0x3F)))
          (String (b (N.lor 0x80 (N.land r 0x3F))) ""))
   else
     String (b (N.lor 0xF0 (N.shiftr r 18)))
       (String (b (N.lor 0x80 (N.land (N.shiftr r 12) 0x3F)))
          (String (b (N.lor 0x80 (N.land (N.shiftr r 6) 0x3F)))
             (String (b (N.lor 0x80 (N.land r 0x3F))) ""))))%N.

(** The code points with the Unicode property White_Space. *)
Definition White_Space_points : list rune :=
  [0x0009; 0x000A; 0x000B; 0x000C; 0x000D; 0x0020; 0x0085; 0x00A0; 0x1680;
   0x2000; 0x2001; 0x2002; 0x2003; 0x2004; 0x2005; 0x2006; 0x2007; 0x2008;
   0x2009; 0x200A; 0x2028; 0x2029; 0x202F; 0x205F; 0x3000]%N.

Definition space_encodings : list string := utf8_encode <$> White_Space_points.


(** A text made of white space only. *)
Inductive space_run : string → Prop :=
  | space_run_nil : space_run ""
  | space_run_cons e t :
      e ∈ space_encodings → space_run t → space_run (e +:+ t).

(** [seg] is [s] without the white space at its two ends. *)
Definition stripped_unicode (s seg : string) : Prop :=
  ∃ pre post,
    s = pre +:+ seg +:+ post
    ∧ space_run pre ∧ space_run post
    ∧ (∀ e rest, e ∈ space_encodings → seg ≠ e +:+ rest)
    ∧ (∀ e front, e ∈ space_encodings → seg ≠ front +:+ e).

(** The first byte of a text, if any, is not a continuation byte. *)
Definition starts_a_rune (t : string) : Prop :=
  match t with
  | EmptyString => True
  | String c _ => (byte_val c <? locb)%N || (hicb <? byte_val c)%N = true
  end.

Definition all_ascii : list ascii :=
  Eval vm_compute in ascii_of_nat <$> seq 0 256.

(** The tests of [DecodeRuneInString], with names, and the list of all
    bytes, for statements about every byte. *)
Definition is_enc (u : string) : bool :=
  existsb (String.eqb u) space_encodings.
Definition dr_multi (c0 : ascii) : bool :=
  negb (utf8_as <=? utf8_first (byte_val c0))%N.
Definition dr_sz (c0 : ascii) : nat :=
  N.to_nat (N.land (utf8_first (byte_val c0)) 7).
Definition dr_accept (c0 c1 : ascii) : bool :=
  let accept := acceptRanges (N.shiftr (utf8_first (byte_val c0)) 4) in
  negb ((byte_val c1 <? accept.1) || (accept.2 <? byte_val c1))%N.
Definition dr_cont (c : ascii) : bool :=
  negb ((byte_val c <? locb) || (hicb <? byte_val c))%N.
Definition dr_rune1 (c0 : ascii) : rune :=
  if N.testbit (utf8_first (byte_val c0)) 0 then RuneError else byte_val c0.
Definition dr_rune2 (c0 c1 : ascii) : rune :=
  N.lor (N.shiftl (N.land (byte_val c0) mask2) 6) (N.land (byte_val c1) maskx).
Definition dr_high3 (c0 : ascii) : N :=
  N.shiftl (N.land (byte_val c0) mask3) 12.
Definition dr_rune3 (c0 c1 c2 : ascii) : rune :=
  N.lor (N.lor (dr_high3 c0) (N.shiftl (N.land (byte_val c1) maskx) 6))
        (N.land (byte_val c2) maskx).
Definition dr_high4 (c0 c1 : ascii) : N :=
  N.lor (N.shiftl (N.land (byte_val c0) mask4) 18)
        (N.shiftl (N.land (byte_val c1) maskx) 12).

(** Text outside ASCII to trim: [U+00E9], the word made of it and [t],
    the no-break space [U+00A0] and the ideographic space [U+3000], in
    UTF-8. *)
Definition e_acute : string := String "195" (String "169" "").
Definition ete : string := e_acute +:+ "t" +:+ e_acute.
Definition no_break_space : string := String "194" (String "160" "").
Definition ideographic_space : string :=
  String "227" (String "128" (String "128" "")).

(** ** A small run time to evaluate the formatter on *)

(** Values with their [%v] form. *)
Inductive sample_value : Type :=
  | VNil
  | VString (s : string)
  | VInt (z : Z).

Definition sample_fmt_v (v : sample_value) : string :=
  match v with
  | VNil => "<nil>"
  | VString s => s
  | VInt z => fmt_d z
  end.

(** A time of day, and the layout elements 15, 04 and 05. *)
Record clock := { hour : nat; minute : nat; second : nat }.

Definition two_digits (n : nat) : string :=
  if (n <? 10)%nat then "0" +:+ fmt_d (Z.of_nat n) else fmt_d (Z.of_nat n).

Fixpoint clock_Format (t : clock) (layout : string) : string :=
  match layout with
  | String "1" (String "5" rest) => two_digits (hour t) +:+ clock_Format t rest
  | String "0" (String "4" rest) => two_digits (minute t) +:+ clock_Format t rest
  | String "0" (String "5" rest) => two_digits (second t) +:+ clock_Format t rest
  | String c rest => String c (clock_Format t rest)
  | EmptyString => EmptyString
  end.

(** The Unicode path of [ToUpper] is not reached on the level names. *)
Definition sample_runtime : Runtime := {|
  time_Time := clock;
  Value := sample_value;
  nil_Value := VNil;
  Time_Format := clock_Format;
  fmt_v := sample_fmt_v;
  unicode_ToUpper := id;
|}.

(** Two iteration orders: the one of the map's representation, and its
    reverse. *)
Definition trie_order : MapRange := {|
  range_keys V m := elements (dom m);
  range_keys_NoDup V m := NoDup_elements (dom m);
  range_keys_elem V m k :=
    ltac:(rewrite elem_of_elements; apply elem_of_dom);
|}.

Definition reverse_order : MapRange := {|
  range_keys V m := reverse (elements (dom m));
  range_keys_NoDup V m :=
    ltac:(rewrite reverse_Permutation; apply NoDup_elements);
  range_keys_elem V m k :=
    ltac:(rewrite elem_of_reverse, elem_of_elements; apply elem_of_dom);
|}.

Definition sample_entry (level : logrus_Level) (kvs : list (string * sample_value))
    (msg : string) (caller : option Frame) : @Entry sample_runtime :=
  @Build_Entry sample_runtime (Some {| ReportCaller := true |})
    (foldl (λ m kv, <[kv.1 := kv.2]> m) ∅ kvs)
    {| hour := 10; minute := 30; second := 0 |} level caller msg.

Definition sample_Format
    : Formatter → @Entry sample_runtime → outcome (string * error) :=
  @Format sample_runtime trie_order logrus_names.

Definition sample_segment : Formatter → @Entry sample_runtime → string :=
  @field_segment sample_runtime trie_order.

(** The default configuration: every option at its zero value. *)
Definition default_Formatter : Formatter :=
  {| FieldsOrder := None; TimestampFormat := ""; HideKeys := false;
     NoColors := false; DisableTrimMessages := false |}.

(** ** The names the field writers print *)

Section names.
Context `{Runtime} `{MapRange}.

(** The names [writeFields] (no order list) or [writeOrderedFields] (an
    order list) passes to [writeField], in that sequence: the second loop
    of [writeOrderedFields] runs only while its counter is positive. *)
Definition rendered_names (order : option (list string)) (entry : Entry)
    : list string :=
  match order with
  | None => sort_Strings (range_keys (Data entry))
  | Some order =>
      present_in entry order ++
      if decide (length (present_in entry order) < size (Data entry))
      then remaining_fields entry order else []
  end.
End names.

(** ** Strings as byte sequences: append and the bytewise helpers *)

Lemma string_app_nil_l (s : string) : "" +:+ s = s.
Proof. reflexivity. Qed.

Lemma string_app_cons (c : ascii) (s t : string) :
  String c s +:+ t = String c (s +:+ t).
Proof. reflexivity. Qed.

Lemma string_app_nil_r (s : string) : s +:+ "" = s.
Proof. induction s as [|c s IH]; [done|]. by rewrite string_app_cons, IH. Qed.

Lemma string_app_assoc (a b c : string) : (a +:+ b) +:+ c = a +:+ (b +:+ c).
Proof.
  induction a as [|x a IH]; [done|].
  by rewrite !string_app_cons, IH.
Qed.

Lemma string_length_app (a b : string) :
  String.length (a +:+ b) = String.length a + String.length b.
Proof.
  induction a as [|x a IH]; [done|].
  rewrite string_app_cons. simpl. by rewrite IH.
Qed.

Lemma string_forallb_app (p : ascii → bool) (a b : string) :
  string_forallb p (a +:+ b) = string_forallb p a && string_forallb p b.
Proof.
  induction a as [|x a IH]; [done|].
  rewrite string_app_cons. simpl. rewrite IH. by rewrite andb_assoc.
Qed.

Lemma contains_byte_app (c : ascii) (a b : string) :
  contains_byte c (a +:+ b) = contains_byte c a || contains_byte c b.
Proof.
  unfold contains_byte. rewrite string_forallb_app. apply negb_andb.
Qed.

Lemma last_byte_snoc (s : string) (c : ascii) :
  last_byte (s +:+ String c "") = Some c.
Proof.
  induction s as [|x s IH]; [done|].
  rewrite string_app_cons. simpl. rewrite IH.
  destruct s; reflexivity.
Qed.

Lemma last_byte_app (a b : string) :
  b ≠ "" → last_byte (a +:+ b) = last_byte b.
Proof.
  intros Hb. induction a as [|x a IH]; [done|].
  rewrite string_app_cons. simpl. rewrite IH.
  destruct (a +:+ b) eqn:E; [|done].
  destruct a; [by rewrite string_app_nil_l in E|by rewrite string_app_cons in E].
Qed.

(** ** The field writers *)

Lemma collect_loop {A} (acc l : list A) :
  foldl (λ fields field, fields ++ [field]) acc l = acc ++ l.
Proof.
  revert acc. induction l as [|x l IH]; intros acc; simpl.
  - by rewrite app_nil_r.
  - rewrite IH. by rewrite <- app_assoc.
Qed.

Lemma collect_filter_loop {A} (P : A → Prop) `{∀ x, Decision (P x)} (acc l : list A) :
  foldl (λ found field, if decide (P field) then found ++ [field] else found) acc l
  = acc ++ filter P l.
Proof.
  revert acc. induction l as [|x l IH]; intros acc; simpl.
  - by rewrite app_nil_r.
  - rewrite IH, filter_cons. destruct (decide (P x)); [|done].
    by rewrite <- app_assoc.
Qed.

Lemma filter_ext_elem {A} (P1 P2 : A → Prop)
    `{!∀ x, Decision (P1 x), !∀ x, Decision (P2 x)} (l : list A) :
  (∀ x, x ∈ l → P1 x ↔ P2 x) → filter P1 l = filter P2 l.
Proof.
  induction l as [|a l IH]; intros Hiff; [done|].
  rewrite !filter_cons.
  assert (P1 a ↔ P2 a) as Ha by (apply Hiff; left).
  rewrite IH by (intros x Hx; apply Hiff; by right).
  destruct (decide (P1 a)), (decide (P2 a)); tauto.
Qed.

Section writers.
Context `{Runtime} `{MapRange} `{LevelStringer}.
Implicit Types (f : Formatter) (entry : Entry) (b : string).

Lemma writeField_text f b entry field :
  writeField f b entry field = b +:+ field_text f entry field.
Proof.
  unfold writeField, field_text.
  destruct (HideKeys f); by rewrite string_app_assoc.
Qed.

Lemma fields_text_app f entry names1 names2 :
  fields_text f entry (names1 ++ names2)
  = fields_text f entry names1 +:+ fields_text f entry names2.
Proof.
  induction names1 as [|x names1 IH]; [done|].
  simpl. by rewrite IH, string_app_assoc.
Qed.

Lemma writeField_loop f b entry names :
  foldl (λ b field, writeField f b entry field) b names
  = b +:+ fields_text f entry names.
Proof.
  revert b. induction names as [|x names IH]; intros b; simpl.
  - by rewrite string_app_nil_r.
  - by rewrite IH, writeField_text, string_app_assoc.
Qed.

Lemma range_keys_empty entry :
  size (Data entry) = 0 → range_keys (Data entry) = [].
Proof.
  intros Hsz. apply map_size_empty_inv in Hsz.
  destruct (range_keys (Data entry)) as [|k l] eqn:E; [done|].
  assert (k ∈ range_keys (Data entry)) as Hk by (rewrite E; left).
  apply range_keys_elem in Hk as [v Hv]. rewrite Hsz in Hv.
  by rewrite lookup_empty in Hv.
Qed.

(** [writeFields] appends the fields in sorted order of their names. *)
Lemma writeFields_text f b entry :
  writeFields f b entry
  = b +:+ fields_text f entry (sort_Strings (range_keys (Data entry))).
Proof.
  unfold writeFields. case_decide as Hsz.
  - by rewrite collect_loop, writeField_loop.
  - assert (size (Data entry) = 0) as Hz by lia.
    rewrite (range_keys_empty _ Hz). by rewrite string_app_nil_r.
Qed.

Lemma ordered_loop f entry order found len b :
  ∃ found',
    foldl (ordered_step f entry) (found, len, b) order
    = (found', (len - Z.of_nat (length (present_in entry order)))%Z,
       b +:+ fields_text f entry (present_in entry order))
    ∧ ∀ k, default false (found' !! k) = true
           ↔ default false (found !! k) = true ∨ k ∈ present_in entry order.
Proof.
  revert found len b. induction order as [|x order IH]; intros found len b.
  - exists found. simpl. rewrite string_app_nil_r, Z.sub_0_r.
    split; [done|]. intros k. rewrite elem_of_nil. tauto.
  - simpl. unfold present_in in *.
    destruct (Data entry !! x) as [v|] eqn:Hx.
    + rewrite filter_cons_True by (rewrite Hx; eauto).
      destruct (IH (<[x:=true]> found) (len - 1)%Z (writeField f b entry x))
        as (found' & -> & Hfound).
      exists found'. split.
      * f_equal; [f_equal|].
        -- simpl. lia.
        -- simpl. by rewrite writeField_text, string_app_assoc.
      * intros k. rewrite Hfound, elem_of_cons.
        destruct (decide (x = k)) as [->|Hne].
        -- rewrite lookup_insert_eq. simpl. tauto.
        -- rewrite lookup_insert_ne by done. intuition congruence.
    + rewrite filter_cons_False by (rewrite Hx; intros [? ?]; congruence).
      apply IH.
Qed.
End writers.

Section ordered.
Context `{Runtime} `{MapRange} `{LevelStringer}.
Implicit Types (f : Formatter) (entry : Entry) (b : string).

Lemma range_keys_length entry :
  length (range_keys (Data entry)) = size (Data entry).
Proof.
  rewrite <- length_map_to_list, <- (length_fmap fst).
  apply Permutation_length, NoDup_Permutation.
  - apply range_keys_NoDup.
  - apply NoDup_fst_map_to_list.
  - intros k. rewrite range_keys_elem, list_elem_of_fmap. split.
    + intros [v Hv]. exists (k, v). split; [done|].
      by apply elem_of_map_to_list.
    + intros [[k' v] [-> Hkv]]. apply elem_of_map_to_list in Hkv. eauto.
Qed.

Lemma present_in_elem entry order k :
  k ∈ present_in entry order ↔ is_Some (Data entry !! k) ∧ k ∈ order.
Proof. unfold present_in. by rewrite list_elem_of_filter. Qed.

(** What [writeOrderedFields] appends, for any order list: the listed
    names the record has, then, if the counter is still positive, the
    names that were not found, sorted. *)
Lemma writeOrderedFields_text f b entry :
  let order := default [] (FieldsOrder f) in
  writeOrderedFields f b entry
  = b +:+ fields_text f entry
      (present_in entry order ++
       if decide (Z.of_nat (length (present_in entry order))
                  < Z.of_nat (size (Data entry)))%Z
       then remaining_fields entry order else []).
Proof.
  intros order. unfold writeOrderedFields. fold order.
  destruct (ordered_loop f entry order ∅ (Z.of_nat (size (Data entry))) b)
    as (found' & -> & Hfound).
  rewrite fields_text_app, <- string_app_assoc.
  destruct (decide (0 < Z.of_nat (size (Data entry))
                        - Z.of_nat (length (present_in entry order)))%Z)
    as [Hpos|Hneg].
  - rewrite decide_True by lia.
    rewrite collect_filter_loop, writeField_loop, app_nil_l.
    do 3 f_equal. unfold remaining_fields. f_equal.
    apply filter_ext_elem. intros k Hk. apply range_keys_elem in Hk.
    specialize (Hfound k). rewrite lookup_empty in Hfound. simpl in Hfound.
    rewrite present_in_elem in Hfound.
    destruct (default false (found' !! k)); intuition congruence.
  - rewrite decide_False by lia. simpl. by rewrite string_app_nil_r.
Qed.

Lemma present_in_NoDup entry order :
  NoDup order → NoDup (present_in entry order).
Proof. apply NoDup_filter. Qed.

(** When no name of the record is listed twice the counter is exact. *)
Lemma present_in_length entry order :
  NoDup (present_in entry order) →
  length (present_in entry order) ≤ size (Data entry)
  ∧ (length (present_in entry order) = size (Data entry) →
     filter (λ field, field ∉ order) (range_keys (Data entry)) = []).
Proof.
  intros Hnd. rewrite <- range_keys_length.
  assert (present_in entry order ⊆+ range_keys (Data entry)) as Hsub.
  { apply NoDup_submseteq; [done|].
    intros k Hk. apply present_in_elem in Hk as [Hk _].
    by apply range_keys_elem. }
  split; [by apply submseteq_length|].
  intros Hlen.
  assert (range_keys (Data entry) ≡ₚ present_in entry order) as Hperm.
  { symmetry. apply submseteq_length_Permutation; [done|lia]. }
  destruct (filter _ (range_keys (Data entry))) as [|k l] eqn:E; [done|].
  assert (k ∈ filter (λ field, field ∉ order) (range_keys (Data entry))) as Hk
    by (rewrite E; left).
  apply list_elem_of_filter in Hk as [Hk1 Hk2].
  rewrite Hperm in Hk2. apply present_in_elem in Hk2 as [_ ?]. done.
Qed.

Lemma sort_Strings_Permutation (l : list string) : sort_Strings l ≡ₚ l.
Proof. apply merge_sort_Permutation. Qed.

Lemma sort_Strings_Sorted (l : list string) : Sorted String.le (sort_Strings l).
Proof. apply (Sorted_merge_sort String.le). Qed.

(** The sorted list is a function of the set of names only. *)
Lemma sort_Strings_unique (l1 l2 : list string) :
  l1 ≡ₚ l2 → sort_Strings l1 = sort_Strings l2.
Proof.
  intros Hperm. apply (Sorted_unique String.le).
  - apply sort_Strings_Sorted.
  - apply sort_Strings_Sorted.
  - by rewrite !sort_Strings_Permutation.
Qed.

Lemma writeOrderedFields_NoDup_text f b entry order :
  FieldsOrder f = Some order →
  NoDup (present_in entry order) →
  writeOrderedFields f b entry
  = b +:+ fields_text f entry
            (present_in entry order ++ remaining_fields entry order).
Proof.
  intros Horder Hnd. rewrite writeOrderedFields_text, Horder. simpl.
  destruct (present_in_length entry order Hnd) as [Hle Hfull].
  case_decide as Hlt; [done|].
  unfold remaining_fields. rewrite Hfull by lia. done.
Qed.
End ordered.

(** ** The shape of a line *)

Section format.
Context `{Runtime} `{MapRange} `{LevelStringer}.
Implicit Types (f : Formatter) (entry : Entry) (b : string).

Lemma field_writers_text f b entry :
  match FieldsOrder f with
  | None => writeFields f b entry
  | Some _ => writeOrderedFields f b entry
  end = b +:+ field_segment f entry.
Proof.
  unfold field_segment. destruct (FieldsOrder f) as [order|] eqn:E.
  - rewrite (writeOrderedFields_text f b), (writeOrderedFields_text f "").
    by rewrite string_app_nil_l.
  - rewrite (writeFields_text f b), (writeFields_text f "").
    by rewrite string_app_nil_l.
Qed.

Lemma writeCaller_text f b entry :
  writeCaller f b entry = b +:+ caller_segment f entry.
Proof.
  unfold caller_segment, writeCaller.
  destruct (HasCaller entry), (Caller entry);
    by rewrite ?string_app_nil_l, ?string_app_nil_r.
Qed.

(** With a level name of four bytes or more, [Format] returns the line
    and the nil error. *)
Lemma Format_returns f entry :
  4 ≤ String.length (level_upper entry) →
  Format f entry = Returned (rendered_line f entry, err_nil).
Proof.
  intros Hlen. unfold Format, slice_to. fold (level_upper entry).
  rewrite decide_True by done. cbn [outcome_bind].
  rewrite field_writers_text, writeCaller_text.
  unfold rendered_line, line_head, line_tail, message_segment, timestamp_text.
  do 2 f_equal.
  destruct (NoColors f), (DisableTrimMessages f); cbn [negb];
    by rewrite ?string_app_assoc, ?string_app_nil_l.
Qed.

(** With a shorter one the slice expression panics. *)
Lemma Format_panics f entry :
  String.length (level_upper entry) < 4 →
  Format f entry = Panicked "slice bounds out of range".
Proof.
  intros Hlen. unfold Format, slice_to. fold (level_upper entry).
  rewrite decide_False by lia. done.
Qed.
End format.

(** ** logrus' level names *)

Section logrus_levels.
Context `{Runtime}.

Lemma logrus_Level_String_cases (level : logrus_Level) :
  logrus_Level_String level
  ∈ ["trace"; "debug"; "info"; "warning"; "error"; "fatal"; "panic"; "unknown"].
Proof.
  unfold logrus_Level_String.
  repeat (match goal with |- context [(?a =? ?b)%N] => destruct (a =? b)%N end;
          [set_solver|]).
  set_solver.
Qed.

(** The eight names in upper case, cut to four bytes. *)
Lemma logrus_level_tag (level : logrus_Level) :
  let upper := strings_ToUpper (logrus_Level_String level) in
  4 ≤ String.length upper
  ∧ String.substring 0 4 upper
    ∈ ["TRAC"; "DEBU"; "INFO"; "WARN"; "ERRO"; "FATA"; "PANI"; "UNKN"].
Proof.
  pose proof (logrus_Level_String_cases level) as Hcases.
  cbv zeta. revert Hcases. generalize (logrus_Level_String level) as name.
  intros name Hname.
  repeat (apply elem_of_cons in Hname as [->|Hname];
          [split; [vm_compute; lia|vm_compute; set_solver]|]).
  by apply elem_of_nil in Hname.
Qed.

(** So with logrus' names [Format] always returns. *)
Lemma Format_logrus_returns `{MapRange} (f : Formatter) (entry : Entry) :
  @Format _ _ logrus_names f entry
  = Returned (@rendered_line _ _ logrus_names f entry, err_nil).
Proof. apply Format_returns. apply logrus_level_tag. Qed.
End logrus_levels.

Lemma substring_prefix (n : nat) (s : string) :
  n ≤ String.length s →
  String.length (String.substring 0 n s) = n
  ∧ ∃ rest, s = String.substring 0 n s +:+ rest.
Proof.
  revert s. induction n as [|n IH]; intros s Hn.
  - destruct s; simpl; (split; [done|]); eexists; by rewrite string_app_nil_l.
  - destruct s as [|c s]; simpl in *; [lia|].
    destruct (IH s) as [Hlen [rest Hrest]]; [lia|].
    split; [by rewrite Hlen|].
    exists rest. by rewrite string_app_cons, <- Hrest.
Qed.

(** ** The level tag *)

(** C3: for a level whose upper-case name has at least four bytes, the
    slice [level[:4]] is in bounds and [Format] writes [ [<LEVEL4>]]
    right after the time stamp (and the colour, if any), where [<LEVEL4>]
    is the first four bytes of the upper-case name; the cut is not guarded,
    so with a shorter name the slice, and with it [Format], panics.  For
    logrus' names the tags are INFO, WARN, ERRO, FATA, PANI, DEBU, TRAC. *)
Theorem level_tag_first_four_bytes `{Runtime} `{MapRange} `{LevelStringer}
    (f : Formatter) (entry : Entry) :
  let upper := strings_ToUpper (Level_String (Level entry)) in
  (4 ≤ String.length upper →
   ∃ tag rest after,
     upper = tag +:+ rest ∧ String.length tag = 4
     ∧ slice_to upper 4 = Returned tag
     ∧ Format f entry
       = Returned
           (("[" +:+ timestamp_text f entry +:+ "]"
             +:+ (if NoColors f then "" else sgr (getColorByLevel (Level entry))))
            +:+ (" [" +:+ tag +:+ "]") +:+ after, err_nil))
  ∧ (String.length upper < 4 →
     ∃ reason, slice_to upper 4 = Panicked reason
               ∧ Format f entry = Panicked reason)
  ∧ (λ level, String.substring 0 4 (strings_ToUpper (logrus_Level_String level)))
      <$> [InfoLevel; WarnLevel; ErrorLevel; FatalLevel; PanicLevel;
           DebugLevel; TraceLevel]
    = ["INFO"; "WARN"; "ERRO"; "FATA"; "PANI"; "DEBU"; "TRAC"].
Proof.
  intros upper. split; [|split].
  - intros Hlen.
    destruct (substring_prefix 4 upper Hlen) as [Hfour [rest Hrest]].
    exists (String.substring 0 4 upper), rest. eexists.
    split; [done|]. split; [done|]. split.
    { unfold slice_to. by rewrite decide_True. }
    rewrite (Format_returns f entry Hlen). unfold rendered_line, line_head.
    fold upper. unfold level_upper. fold upper.
    by rewrite !string_app_assoc.
  - intros Hlen. exists "slice bounds out of range". split.
    { unfold slice_to. by rewrite decide_False by lia. }
    by apply Format_panics.
  - vm_compute. reflexivity.
Qed.

Lemma level_tag_first_four_bytes_witness :
  4 ≤ String.length (@strings_ToUpper sample_runtime (logrus_Level_String WarnLevel))
  ∧ ∃ tag rest after,
      @strings_ToUpper sample_runtime (logrus_Level_String WarnLevel) = tag +:+ rest
      ∧ String.length tag = 4
      ∧ slice_to (@strings_ToUpper sample_runtime (logrus_Level_String WarnLevel)) 4
        = Returned tag
      ∧ sample_Format default_Formatter (sample_entry WarnLevel [] "disk full" None)
        = Returned
            (("[" +:+ @timestamp_text sample_runtime default_Formatter
                        (sample_entry WarnLevel [] "disk full" None) +:+ "]"
              +:+ sgr (getColorByLevel WarnLevel))
             +:+ (" [" +:+ tag +:+ "]") +:+ after, err_nil).
Proof.
  split; [vm_compute; lia|].
  apply (proj1 (@level_tag_first_four_bytes sample_runtime trie_order logrus_names
                  default_Formatter (sample_entry WarnLevel [] "disk full" None))).
  vm_compute; lia.
Defined.

(** ** Success *)

(** C9: with logrus' level names [Format] returns for every record and
    configuration: the rendered bytes together with the nil error. *)
Theorem Format_always_succeeds `{Runtime} `{MapRange}
    (f : Formatter) (entry : Entry) :
  ∃ out, @Format _ _ logrus_names f entry = Returned (out, err_nil)
         ∧ out = @rendered_line _ _ logrus_names f entry.
Proof.
  eexists. split; [|reflexivity]. apply Format_logrus_returns.
Qed.

(** ** Colours *)

(** C6: [getColorByLevel] maps Trace and Debug to 37, Warn to 33, Error,
    Fatal and Panic to 31, Info and every level that is not one of the seven
    to 36; with colours on, [Format] writes ESC[<n>m after the time stamp
    and ESC[0m after the fields, before the message. *)
Theorem level_colours `{Runtime} `{MapRange} (f : Formatter) (entry : Entry) :
  (getColorByLevel TraceLevel = 37 ∧ getColorByLevel DebugLevel = 37
   ∧ getColorByLevel WarnLevel = 33
   ∧ getColorByLevel ErrorLevel = 31 ∧ getColorByLevel FatalLevel = 31
   ∧ getColorByLevel PanicLevel = 31
   ∧ getColorByLevel InfoLevel = 36)%Z
  ∧ (∀ level, (TraceLevel < level)%N → getColorByLevel level = 36%Z)
  ∧ (sgr 37 = String ESC "[37m" ∧ sgr 33 = String ESC "[33m"
     ∧ sgr 31 = String ESC "[31m" ∧ sgr 36 = String ESC "[36m"
     ∧ sgr colorNone = String ESC "[0m")
  ∧ (NoColors f = false →
     @Format _ _ logrus_names f entry
     = Returned
         ("[" +:+ timestamp_text f entry +:+ "]"
          +:+ sgr (getColorByLevel (Level entry))
          +:+ " [" +:+ String.substring 0 4 (@level_upper _ logrus_names entry)
          +:+ "]" +:+ " "
          +:+ field_segment f entry
          +:+ String ESC "[0m"
          +:+ message_segment f (Message entry)
          +:+ caller_segment f entry
          +:+ String LF "", err_nil)).
Proof.
  split; [by vm_compute|]. split; [|split; [by vm_compute|]].
  - intros level Hlevel. unfold getColorByLevel.
    unfold TraceLevel, DebugLevel, WarnLevel, ErrorLevel, FatalLevel,
      PanicLevel in *.
    by rewrite !(proj2 (N.eqb_neq level _)) by lia.
  - intros Hcol.
    rewrite Format_logrus_returns.
    unfold rendered_line, line_head, line_tail. rewrite Hcol.
    by rewrite !string_app_assoc.
Qed.

Lemma level_colours_witness :
  sample_Format default_Formatter (sample_entry ErrorLevel [] "boom" None)
  = Returned ("[10:30:00]" +:+ String ESC "[31m" +:+ " [ERRO] "
              +:+ String ESC "[0m" +:+ "boom" +:+ String LF "", err_nil).
Proof.
  unfold sample_Format.
  rewrite (proj2 (proj2 (proj2
    (@level_colours sample_runtime trie_order default_Formatter
       (sample_entry ErrorLevel [] "boom" None)))) eq_refl).
  vm_compute. reflexivity.
Defined.

(** ** One field *)

(** C7: [writeField] appends [[<value>]] when [HideKeys] is set and
    [[<name>:<value>]] otherwise, where [<value>] is the [%v] form of the
    field's value, and then one space; the field segment is a sequence of
    such texts, so the last field too has its space.  With the fields
    user=alice and id=42 and the order list [id] the segment is
    [[id:42] [user:alice] ], and [[42] [alice] ] with [HideKeys]. *)
Theorem field_rendering `{Runtime} `{MapRange}
    (f : Formatter) (b : string) (entry : Entry) (field : string) :
  writeField f b entry field
  = b +:+ (if HideKeys f then "[" +:+ fmt_v (Data_at entry field) +:+ "]"
           else "[" +:+ field +:+ ":" +:+ fmt_v (Data_at entry field) +:+ "]")
      +:+ " "
  ∧ (∃ names, field_segment f entry = fields_text f entry names)
  ∧ sample_segment
      {| FieldsOrder := Some ["id"]; TimestampFormat := ""; HideKeys := false;
         NoColors := false; DisableTrimMessages := false |}
      (sample_entry InfoLevel [("user", VString "alice"); ("id", VInt 42)] "" None)
    = "[id:42] [user:alice] "
  ∧ sample_segment
      {| FieldsOrder := Some ["id"]; TimestampFormat := ""; HideKeys := true;
         NoColors := false; DisableTrimMessages := false |}
      (sample_entry InfoLevel [("user", VString "alice"); ("id", VInt 42)] "" None)
    = "[42] [alice] ".
Proof.
  split; [|split; [|split; by vm_compute]].
  - by rewrite writeField_text.
  - unfold field_segment. destruct (FieldsOrder f).
    + rewrite writeOrderedFields_text, string_app_nil_l. eauto.
    + rewrite writeFields_text, string_app_nil_l. eauto.
Qed.

(** ** The alphabetical order *)

Lemma range_keys_Permutation (M1 M2 : MapRange) {V} (m : gmap string V) :
  @range_keys M1 V m ≡ₚ @range_keys M2 V m.
Proof.
  apply NoDup_Permutation; [apply range_keys_NoDup..|].
  intros k. by rewrite !range_keys_elem.
Qed.

Lemma fields_text_Data `{Runtime} (f : Formatter) (e1 e2 : Entry) names :
  Data e1 = Data e2 → fields_text f e1 names = fields_text f e2 names.
Proof.
  intros HD. induction names as [|k names IH]; [done|].
  simpl. rewrite IH. unfold field_text, Data_at. by rewrite HD.
Qed.

Lemma assign_all_list_to_map {V} (kvs : list (string * V)) (m : gmap string V) :
  foldl (λ m kv, <[kv.1 := kv.2]> m) m kvs = list_to_map (reverse kvs) ∪ m.
Proof.
  revert m. induction kvs as [|[k v] kvs IH]; intros m; simpl.
  - by rewrite (left_id_L ∅ (∪)).
  - rewrite IH, reverse_cons, list_to_map_app. simpl.
    rewrite <- (assoc_L (∪)). f_equal.
    by rewrite insert_empty, <- insert_union_singleton_l.
Qed.

Lemma assign_all_Permutation {V} (kvs1 kvs2 : list (string * V)) :
  NoDup kvs1.*1 → kvs1 ≡ₚ kvs2 →
  foldl (λ m kv, <[kv.1 := kv.2]> m) (∅ : gmap string V) kvs1
  = foldl (λ m kv, <[kv.1 := kv.2]> m) ∅ kvs2.
Proof.
  intros Hnd Hperm. rewrite !assign_all_list_to_map. f_equal.
  apply list_to_map_proper.
  - by rewrite reverse_Permutation.
  - by rewrite !reverse_Permutation.
Qed.

(** C8: without an order list the field segment is the fields rendered in
    the sorted order of their names, whatever order the map is visited in;
    two records with the same fields have the same field segment, also when
    the fields were assigned in different orders. *)
Theorem alphabetical_fallback `{Runtime} (M1 M2 : MapRange)
    (f : Formatter) (entry : Entry) :
  FieldsOrder f = None →
  (∃ names,
     @field_segment _ M1 f entry = fields_text f entry names
     ∧ Sorted String.le names
     ∧ NoDup names
     ∧ ∀ k, k ∈ names ↔ is_Some (Data entry !! k))
  ∧ (∀ entry2, Data entry2 = Data entry →
       @field_segment _ M2 f entry2 = @field_segment _ M1 f entry)
  ∧ (∀ kvs1 kvs2, NoDup kvs1.*1 → kvs1 ≡ₚ kvs2 →
       @field_segment _ M1 f (with_fields kvs1 entry)
       = @field_segment _ M2 f (with_fields kvs2 entry)).
Proof.
  intros Hnil.
  assert (∀ (M M' : MapRange) (e e' : Entry), Data e' = Data e →
            @field_segment _ M' f e' = @field_segment _ M f e) as Hsame.
  { intros M M' e e' HD. unfold field_segment. rewrite Hnil.
    rewrite !writeFields_text, !string_app_nil_l.
    rewrite (fields_text_Data f e' e) by done. f_equal.
    apply sort_Strings_unique. rewrite HD. apply range_keys_Permutation. }
  split; [|split].
  - exists (sort_Strings (@range_keys M1 _ (Data entry))).
    split; [|split; [|split]].
    + unfold field_segment. rewrite Hnil.
      by rewrite writeFields_text, string_app_nil_l.
    + apply sort_Strings_Sorted.
    + rewrite sort_Strings_Permutation. apply range_keys_NoDup.
    + intros k. rewrite sort_Strings_Permutation. apply range_keys_elem.
  - intros entry2 HD. by apply Hsame.
  - intros kvs1 kvs2 Hnd Hperm. apply Hsame. unfold with_fields. cbn [Data].
    by apply assign_all_Permutation.
Qed.

Lemma alphabetical_fallback_witness :
  @field_segment sample_runtime trie_order default_Formatter
    (sample_entry InfoLevel
       [("user", VString "alice"); ("id", VInt 42); ("app", VString "x")] "" None)
  = @field_segment sample_runtime reverse_order default_Formatter
      (sample_entry InfoLevel
         [("app", VString "x"); ("user", VString "alice"); ("id", VInt 42)] "" None).
Proof.
  apply (proj2 (proj2
    (@alphabetical_fallback sample_runtime trie_order reverse_order
       default_Formatter (sample_entry InfoLevel [] "" None) eq_refl))
    [("user", VString "alice"); ("id", VInt 42); ("app", VString "x")]
    [("app", VString "x"); ("user", VString "alice"); ("id", VInt 42)]).
  - apply (bool_decide_unpack _). vm_compute. exact I.
  - exact (Permutation_app_comm
             [("user", VString "alice"); ("id", VInt 42)] [("app", VString "x")]).
Defined.

(** ** The order list *)

Lemma filter_not_in_nil (l : list string) : filter (λ field, field ∉ []) l = l.
Proof.
  induction l as [|x l IH]; [done|].
  rewrite filter_cons_True by apply not_elem_of_nil. by rewrite IH.
Qed.

Lemma fields_text_HideKeys `{Runtime} (f1 f2 : Formatter) (entry : Entry) names :
  HideKeys f1 = HideKeys f2 →
  fields_text f1 entry names = fields_text f2 entry names.
Proof.
  intros Hhide. induction names as [|k names IH]; [done|].
  simpl. rewrite IH. unfold field_text. by rewrite Hhide.
Qed.

(** C10: an empty order list that is not nil renders the fields as the nil
    order list does: the field segment of either is the fields of the
    record, each once, in the sorted order of their names (the names
    rendered are sorted, without repetition, and are the names of the
    record's fields), whatever order the map is visited in; the two writers
    add the same text to any buffer and [Format] returns the same.  The
    fields [user] and [id] give [[id:42] [user:alice] ] with the empty
    list. *)
Theorem empty_order_is_alphabetical `{Runtime} `{MapRange} `{LevelStringer}
    (layout : string) (hide nocolors notrim : bool) (entry : Entry) :
  let f_empty := {| FieldsOrder := Some []; TimestampFormat := layout;
                    HideKeys := hide; NoColors := nocolors;
                    DisableTrimMessages := notrim |} in
  let f_nil := {| FieldsOrder := None; TimestampFormat := layout;
                  HideKeys := hide; NoColors := nocolors;
                  DisableTrimMessages := notrim |} in
  field_segment f_empty entry = field_segment f_nil entry
  ∧ field_segment f_nil entry
    = fields_text f_nil entry (sort_Strings (range_keys (Data entry)))
  ∧ (∀ b, writeOrderedFields f_empty b entry = writeFields f_nil b entry)
  ∧ Format f_empty entry = Format f_nil entry
  ∧ (∃ names,
       field_segment f_empty entry = fields_text f_empty entry names
       ∧ field_segment f_nil entry = fields_text f_nil entry names
       ∧ Sorted String.le names
       ∧ NoDup names
       ∧ ∀ k, k ∈ names ↔ is_Some (Data entry !! k))
  ∧ @field_segment sample_runtime reverse_order
      {| FieldsOrder := Some []; TimestampFormat := ""; HideKeys := false;
         NoColors := false; DisableTrimMessages := false |}
      (sample_entry InfoLevel [("user", VString "alice"); ("id", VInt 42)] "" None)
    = "[id:42] [user:alice] "
  ∧ @field_segment sample_runtime reverse_order
      {| FieldsOrder := None; TimestampFormat := ""; HideKeys := false;
         NoColors := false; DisableTrimMessages := false |}
      (sample_entry InfoLevel [("user", VString "alice"); ("id", VInt 42)] "" None)
    = "[id:42] [user:alice] ".
Proof.
  intros f_empty f_nil.
  assert (∀ b, writeOrderedFields f_empty b entry = writeFields f_nil b entry)
    as Hwriters.
  { intros b. rewrite writeFields_text.
    rewrite (writeOrderedFields_NoDup_text f_empty b entry [])
      by (done || apply NoDup_nil_2).
    simpl. unfold remaining_fields. rewrite filter_not_in_nil.
    by rewrite (fields_text_HideKeys f_empty f_nil). }
  assert (field_segment f_empty entry = field_segment f_nil entry) as Hseg.
  { unfold field_segment. simpl. apply Hwriters. }
  assert (field_segment f_nil entry
          = fields_text f_nil entry (sort_Strings (range_keys (Data entry))))
    as Hnil.
  { unfold field_segment. simpl. by rewrite writeFields_text, string_app_nil_l. }
  split; [done|]. split; [done|]. split; [done|]. split; [|split].
  - destruct (decide (4 ≤ String.length (level_upper entry))) as [Hlen|Hlen].
    + rewrite !Format_returns by done. unfold rendered_line, line_head.
      by rewrite Hseg.
    + rewrite !Format_panics by lia. done.
  - exists (sort_Strings (range_keys (Data entry))).
    split; [|split; [done|split; [|split]]].
    + rewrite Hseg, Hnil. by apply fields_text_HideKeys.
    + apply sort_Strings_Sorted.
    + rewrite sort_Strings_Permutation. apply range_keys_NoDup.
    + intros k. rewrite sort_Strings_Permutation. apply range_keys_elem.
  - split; by vm_compute.
Qed.

(** C1, for an order list that names no field of the record twice: the
    field segment has each field of the record once, first the names of the
    order list that the record has, in the sequence of the list (a name the
    record lacks leaves nothing), then the other fields in sorted order.
    An order list that repeats a name of the record is the only way for a
    field not to be rendered once. *)
Theorem ordered_fields_each_once `{Runtime} `{MapRange}
    (f : Formatter) (entry : Entry) (order : list string) :
  FieldsOrder f = Some order →
  (NoDup (present_in entry order) →
   each_field_once f entry
   ∧ present_in entry order `sublist_of` order
   ∧ (∀ k, k ∈ present_in entry order ↔ is_Some (Data entry !! k) ∧ k ∈ order)
   ∧ Sorted String.le (remaining_fields entry order)
   ∧ (∀ k, k ∈ remaining_fields entry order
           ↔ is_Some (Data entry !! k) ∧ k ∉ order))
  ∧ (each_field_once f entry → NoDup (present_in entry order)).
Proof.
  intros Horder. split.
  - intros Hnd.
    assert (∀ k, k ∈ remaining_fields entry order
                 ↔ is_Some (Data entry !! k) ∧ k ∉ order) as Hrest.
    { intros k. unfold remaining_fields.
      rewrite sort_Strings_Permutation, list_elem_of_filter, range_keys_elem.
      tauto. }
    split; [|split; [|split; [|split]]].
    + exists (present_in entry order ++ remaining_fields entry order).
      rewrite Horder. simpl. split; [|split; [done|split]].
      * unfold field_segment. rewrite Horder.
        rewrite (writeOrderedFields_NoDup_text f "" entry order) by done.
        by rewrite string_app_nil_l.
      * apply NoDup_app. split; [done|]. split.
        -- intros k Hk. rewrite Hrest. apply present_in_elem in Hk. tauto.
        -- unfold remaining_fields. rewrite sort_Strings_Permutation.
           apply NoDup_filter, range_keys_NoDup.
      * intros k. rewrite elem_of_app, Hrest, present_in_elem.
        destruct (decide (k ∈ order)); tauto.
    + apply sublist_filter.
    + apply present_in_elem.
    + apply sort_Strings_Sorted.
    + done.
  - intros (names & _ & -> & Hnd & _). rewrite Horder in Hnd. simpl in Hnd.
    by apply NoDup_app in Hnd as [? _].
Qed.

Lemma ordered_fields_each_once_witness :
  @each_field_once sample_runtime trie_order
    {| FieldsOrder := Some ["id"; "host"; "host"]; TimestampFormat := "";
       HideKeys := false; NoColors := false; DisableTrimMessages := false |}
    (sample_entry InfoLevel [("user", VString "alice"); ("id", VInt 42)] "" None).
Proof.
  apply (@ordered_fields_each_once sample_runtime trie_order _ _
           ["id"; "host"; "host"]).
  - reflexivity.
  - apply (bool_decide_unpack _). vm_compute. exact I.
Defined.

(** C1 does not hold for every order list: when the list repeats a name of
    the record, here [a], that field is rendered twice, and the field [b]
    not at all. *)
Lemma repeated_order_counterexample :
  sample_segment
    {| FieldsOrder := Some ["a"; "a"]; TimestampFormat := ""; HideKeys := false;
       NoColors := false; DisableTrimMessages := false |}
    (sample_entry InfoLevel [("a", VInt 1); ("b", VInt 2)] "" None)
  = "[a:1] [a:1] "
  ∧ occurrences "[a:1]" "[a:1] [a:1] " = 2
  ∧ occurrences "[b:2]" "[a:1] [a:1] " = 0
  ∧ ¬ @each_field_once sample_runtime trie_order
        {| FieldsOrder := Some ["a"; "a"]; TimestampFormat := ""; HideKeys := false;
           NoColors := false; DisableTrimMessages := false |}
        (sample_entry InfoLevel [("a", VInt 1); ("b", VInt 2)] "" None).
Proof.
  split; [by vm_compute|]. split; [by vm_compute|]. split; [by vm_compute|].
  intros (names & _ & Hnames & Hnd & _).
  vm_compute in Hnames. subst names.
  apply NoDup_cons in Hnd as [Hnotin _]. apply Hnotin. left.
Qed.

(** ** The message *)

Lemma string_ascii_cons (c : ascii) (s : string) :
  string_forallb is_ascii_byte (String c s) = true →
  is_ascii_byte c = true ∧ string_forallb is_ascii_byte s = true.
Proof. simpl. intros Hc. by apply andb_prop in Hc. Qed.

(** The first loop of [TrimSpace] on ASCII text: what it skips is white
    space, and what is left does not start with white space. *)
Lemma trim_scan_left_ascii (s : string) :
  string_forallb is_ascii_byte s = true →
  ∃ pre,
    s = pre +:+ (trim_scan_left s).1
    ∧ all_space pre = true
    ∧ (trim_scan_left s).2 = false
    ∧ string_forallb is_ascii_byte (trim_scan_left s).1 = true
    ∧ ∀ c, first_byte (trim_scan_left s).1 = Some c → asciiSpace c = false.
Proof.
  induction s as [|c s IH]; intros Hascii.
  - exists "". by simpl.
  - pose proof Hascii as Hcons.
    apply string_ascii_cons in Hcons as [Hc Hs].
    cbn [trim_scan_left]. rewrite Hc. cbn [negb].
    destruct (asciiSpace c) eqn:Hsp.
    + destruct (IH Hs) as (pre & Heq & Hpre & Hfast & Hrest & Hfirst).
      exists (String c pre). rewrite string_app_cons, <- Heq.
      split; [done|]. split; [|done].
      unfold all_space in *. simpl. by rewrite Hsp, Hpre.
    + exists "". simpl. repeat split; try done.
      intros c' [= <-]. done.
Qed.

(** The second loop on ASCII text: what it drops is white space, and what
    it keeps does not end with white space. *)
Lemma trim_scan_right_ascii (s : string) :
  string_forallb is_ascii_byte s = true →
  ∃ post,
    s = (trim_scan_right s).1 +:+ post
    ∧ all_space post = true
    ∧ (trim_scan_right s).2 = false
    ∧ ∀ c, last_byte (trim_scan_right s).1 = Some c → asciiSpace c = false.
Proof.
  induction s as [|c s IH]; intros Hascii.
  - exists "". by simpl.
  - apply string_ascii_cons in Hascii as [Hc Hs].
    destruct (IH Hs) as (post & Heq & Hpost & Hfast & Hlast).
    cbn [trim_scan_right].
    destruct (trim_scan_right s) as [[|x t] slow]; simpl in *.
    + rewrite Hc. cbn [negb]. rewrite string_app_nil_l in Heq. subst post.
      destruct (asciiSpace c) eqn:Hsp; simpl.
      * exists (String c s). rewrite string_app_nil_l.
        repeat split; try done.
        unfold all_space in *. simpl. by rewrite Hsp, Hpost.
      * exists s. repeat split; try done.
        intros c' [= <-]. done.
    + exists post. rewrite !string_app_cons, <- string_app_cons, <- Heq.
      repeat split; done.
Qed.

Lemma first_byte_app (a b : string) (c : ascii) :
  first_byte a = Some c → first_byte (a +:+ b) = Some c.
Proof. destruct a; [done|]. by rewrite string_app_cons. Qed.

(** On ASCII text [strings.TrimSpace] strips the white space of both ends. *)
Lemma strings_TrimSpace_ascii (s : string) :
  string_forallb is_ascii_byte s = true → stripped s (strings_TrimSpace s).
Proof.
  intros Hascii. unfold strings_TrimSpace.
  destruct (trim_scan_left_ascii s Hascii)
    as (pre & Heq & Hpre & Hfast & Hrest & Hfirst).
  destruct (trim_scan_left s) as [rest slow]. simpl in *. subst slow.
  destruct (trim_scan_right_ascii rest Hrest)
    as (post & Heq' & Hpost & Hfast' & Hlast).
  destruct (trim_scan_right rest) as [kept slow]. simpl in *. subst slow.
  exists pre, post. split; [by rewrite <- Heq'|].
  repeat split; try done.
  intros c Hc. apply Hfirst. rewrite Heq'. by apply first_byte_app.
Qed.

(** ** White space as Unicode defines it *)

Lemma string_take_drop (n : nat) (s : string) :
  string_take n s +:+ string_drop n s = s.
Proof.
  revert s. induction n as [|n IH]; intros [|c s]; simpl; try done.
  by rewrite string_app_cons, IH.
Qed.

Lemma string_take_length (n : nat) (s : string) :
  String.length (string_take n s) = n `min` String.length s.
Proof.
  revert s. induction n as [|n IH]; intros [|c s]; simpl; try done.
  by rewrite IH.
Qed.

Lemma string_drop_length (n : nat) (s : string) :
  String.length (string_drop n s) = String.length s - n.
Proof.
  revert s. induction n as [|n IH]; intros [|c s]; simpl; try done.
Qed.

Lemma string_take_app (p t : string) :
  string_take (String.length p) (p +:+ t) = p.
Proof.
  induction p as [|c p IH]; [by destruct t|].
  rewrite string_app_cons. simpl. by rewrite IH.
Qed.

Lemma string_drop_app (p t : string) :
  string_drop (String.length p) (p +:+ t) = t.
Proof. induction p as [|c p IH]; [by destruct t|]. done. Qed.

Lemma string_take_app_le (n : nat) (p t : string) :
  n ≤ String.length p → string_take n (p +:+ t) = string_take n p.
Proof.
  revert p. induction n as [|n IH]; intros [|c p] Hn; simpl in *;
    try done; try lia.
  rewrite ?string_app_cons. simpl. rewrite IH; [done|lia].
Qed.

Lemma string_drop_app_le (n : nat) (p t : string) :
  n ≤ String.length p → string_drop n (p +:+ t) = string_drop n p +:+ t.
Proof.
  revert p. induction n as [|n IH]; intros [|c p] Hn; simpl in *;
    try done; try lia.
  rewrite ?string_app_cons. simpl. rewrite IH; [done|lia].
Qed.

Lemma string_take_all (n : nat) (s : string) :
  String.length s ≤ n → string_take n s = s.
Proof.
  revert s. induction n as [|n IH]; intros [|c s] Hn; simpl in *;
    try done; try lia.
  rewrite IH; [done|lia].
Qed.

Lemma byte_at_app_r (p t : string) (k : nat) :
  byte_at (p +:+ t) (String.length p + k) = byte_at t k.
Proof.
  unfold byte_at. induction p as [|c p IH]; [done|].
  rewrite string_app_cons. simpl. apply IH.
Qed.

Lemma byte_at_0 (c : ascii) (t : string) : byte_at (String c t) 0 = byte_val c.
Proof. done. Qed.

Lemma byte_at_drop (s : string) (n : nat) :
  byte_at s n = byte_at (string_drop n s) 0.
Proof.
  revert s. induction n as [|n IH]; intros [|c s]; simpl; try done.
  apply (IH s).
Qed.

Lemma all_ascii_complete (c : ascii) : c ∈ all_ascii.
Proof.
  assert (all_ascii = ascii_of_nat <$> seq 0 256) as -> by (by vm_compute).
  apply list_elem_of_fmap. exists (nat_of_ascii c).
  split; [by rewrite ascii_nat_embedding|].
  apply elem_of_seq. pose proof (nat_ascii_bounded c). lia.
Qed.

Lemma forall_ascii (P : ascii → bool) :
  forallb P all_ascii = true → ∀ c, P c = true.
Proof.
  intros Hall c. rewrite forallb_forall in Hall. apply Hall.
  apply list_elem_of_In, all_ascii_complete.
Qed.

Lemma forall_ascii2 (g : ascii → bool) (P : ascii → ascii → bool) :
  forallb (λ a, if g a then forallb (P a) all_ascii else true) all_ascii = true →
  ∀ a b, g a = true → P a b = true.
Proof.
  intros Hall a b Hg. apply (forall_ascii _) with (c := a) in Hall.
  rewrite Hg in Hall. by apply forall_ascii.
Qed.

Lemma forall_ascii3 (g0 : ascii → bool) (g1 : ascii → ascii → bool)
    (P : ascii → ascii → ascii → bool) :
  forallb (λ a, if g0 a then
                  forallb (λ b, if g1 a b then forallb (P a b) all_ascii
                                else true) all_ascii
                else true) all_ascii = true →
  ∀ a b c, g0 a = true → g1 a b = true → P a b c = true.
Proof.
  intros Hall a b c Hg0 Hg1. apply (forall_ascii _) with (c := a) in Hall.
  rewrite Hg0 in Hall. apply (forall_ascii _) with (c := b) in Hall.
  rewrite Hg1 in Hall. by apply forall_ascii.
Qed.

Lemma dr_sz_enum :
  forallb (λ c, if dr_multi c
                then (dr_sz c =? 2) || (dr_sz c =? 3) || (dr_sz c =? 4)
                else true) all_ascii = true.
Proof. vm_compute. reflexivity. Qed.

Lemma dr_sz_cases (c0 : ascii) :
  dr_multi c0 = true → dr_sz c0 = 2 ∨ dr_sz c0 = 3 ∨ dr_sz c0 = 4.
Proof.
  intros Hm. pose proof (forall_ascii _ dr_sz_enum c0) as Hs.
  simpl in Hs. rewrite Hm in Hs.
  apply orb_prop in Hs as [Hs|Hs]; [apply orb_prop in Hs as [Hs|Hs]|];
    apply Nat.eqb_eq in Hs; auto.
Qed.

Lemma dr_accept_enum :
  forallb (λ a, if dr_multi a
                then forallb (λ b, implb (dr_accept a b) (dr_cont b)) all_ascii
                else true) all_ascii = true.
Proof. vm_compute. reflexivity. Qed.

Lemma dr_accept_cont (c0 c1 : ascii) :
  dr_multi c0 = true → dr_accept c0 c1 = true → dr_cont c1 = true.
Proof.
  intros Hm Ha.
  pose proof (forall_ascii2 _ _ dr_accept_enum c0 c1 Hm) as Hs.
  simpl in Hs. by rewrite Ha in Hs.
Qed.

(** [DecodeRuneInString] in terms of its tests. *)
Lemma DecodeRuneInString_unfold (c0 : ascii) (t0 : string) :
  DecodeRuneInString (String c0 t0)
  = if negb (dr_multi c0) then (dr_rune1 c0, 1)
    else if (String.length (String c0 t0) <? dr_sz c0)%nat then (RuneError, 1)
    else match t0 with
         | EmptyString => (RuneError, 1)
         | String c1 t1 =>
             if negb (dr_accept c0 c1) then (RuneError, 1)
             else if (dr_sz c0 <=? 2)%nat then (dr_rune2 c0 c1, 2)
             else match t1 with
                  | EmptyString => (RuneError, 1)
                  | String c2 t2 =>
                      if negb (dr_cont c2) then (RuneError, 1)
                      else if (dr_sz c0 <=? 3)%nat then (dr_rune3 c0 c1 c2, 3)
                      else match t2 with
                           | EmptyString => (RuneError, 1)
                           | String c3 _ =>
                               if negb (dr_cont c3) then (RuneError, 1)
                               else (N.lor (N.lor (dr_high4 c0 c1)
                                              (N.shiftl (N.land (byte_val c2) maskx) 6))
                                           (N.land (byte_val c3) maskx), 4)
                           end
                  end
         end.
Proof.
  unfold DecodeRuneInString, dr_multi, dr_sz, dr_accept, dr_cont, dr_rune1,
    dr_rune2, dr_rune3, dr_high3, dr_high4.
  repeat (rewrite ?negb_involutive; case_match; try done).
Qed.

Lemma DecodeRuneInString_size (s : string) (r : rune) (size : nat) :
  s ≠ "" → DecodeRuneInString s = (r, size) →
  1 ≤ size ≤ String.length s.
Proof.
  destruct s as [|c0 t0]; [done|]. intros _.
  rewrite DecodeRuneInString_unfold.
  destruct (dr_multi c0) eqn:Hm; cbn [negb].
  - destruct (dr_sz_cases c0 Hm) as [Hs|[Hs|Hs]]; rewrite Hs;
      destruct t0 as [|c1 [|c2 [|c3 t3]]]; simpl;
      repeat case_match; intros [= <- <-]; simpl; lia.
  - intros [= <- <-]. simpl. lia.
Qed.

Lemma dr_ascii_enum :
  forallb (λ c, if (byte_val c <? RuneSelf)%N
                then negb (dr_multi c) && (dr_rune1 c =? byte_val c)%N
                else true) all_ascii = true.
Proof. vm_compute. reflexivity. Qed.

Lemma DecodeRuneInString_ascii (c : ascii) (t : string) :
  (byte_val c <? RuneSelf)%N = true →
  DecodeRuneInString (String c t) = (byte_val c, 1).
Proof.
  intros Hc. pose proof (forall_ascii _ dr_ascii_enum c) as He.
  simpl in He. rewrite Hc in He. apply andb_prop in He as [Hm Hr].
  apply N.eqb_eq in Hr. rewrite DecodeRuneInString_unfold, Hm. by rewrite Hr.
Qed.

(** A byte followed by the start of another rune is a rune of width 1. *)
Lemma DecodeRuneInString_alone (c : ascii) (tail : string) :
  starts_a_rune tail → (DecodeRuneInString (String c tail)).2 = 1.
Proof.
  intros Htail. rewrite DecodeRuneInString_unfold.
  destruct (dr_multi c) eqn:Hm; cbn [negb]; [|done].
  case_match; [done|].
  destruct tail as [|c1 t1]; [done|].
  destruct (dr_accept c c1) eqn:Ha; [|done].
  apply dr_accept_cont in Ha; [|done].
  unfold dr_cont in Ha. simpl in Htail. by rewrite Htail in Ha.
Qed.

(** A rune of two bytes or more does not depend on what follows it. *)
Lemma DecodeRuneInString_app (u tail : string) (r : rune) (size : nat) :
  DecodeRuneInString u = (r, size) → String.length u = size → 2 ≤ size →
  DecodeRuneInString (u +:+ tail) = (r, size).
Proof.
  intros Hdec Hlen Hsize.
  destruct u as [|c0 t0]; [simpl in Hlen; lia|].
  rewrite string_app_cons. rewrite DecodeRuneInString_unfold in *.
  destruct (dr_multi c0) eqn:Hm; cbn [negb] in *;
    [|injection Hdec as <- <-; lia].
  destruct (dr_sz_cases c0 Hm) as [Hs|[Hs|Hs]]; rewrite Hs in *;
    destruct t0 as [|c1 [|c2 [|c3 [|c4 t4]]]];
    rewrite ?string_app_cons, ?string_app_nil_l; simpl in *;
    repeat case_match; simplify_eq/=; try done; try lia.
Qed.

Lemma unicode_IsSpace_small (r : rune) :
  unicode_IsSpace r = true → N.shiftr r 14 = 0%N.
Proof.
  intros Hsp. rewrite N.shiftr_div_pow2. apply N.div_small.
  unfold unicode_IsSpace in Hsp.
  destruct (r <=? MaxLatin1)%N eqn:Hlatin.
  - apply N.leb_le in Hlatin. unfold MaxLatin1 in Hlatin.
    change (2 ^ 14)%N with 16384%N. lia.
  - cbn -[N.leb N.eqb N.modulo N.sub] in Hsp.
    change (2 ^ 14)%N with 16384%N.
    repeat (apply orb_prop in Hsp as [Hsp|Hsp]); try done;
      apply andb_prop in Hsp as [Hsp _]; apply andb_prop in Hsp as [_ Hsp];
      apply N.leb_le in Hsp; lia.
Qed.

Lemma RuneError_not_space : unicode_IsSpace RuneError = false.
Proof. reflexivity. Qed.

Lemma elem_of_space_encodings (u : string) :
  is_enc u = true → u ∈ space_encodings.
Proof.
  unfold is_enc. rewrite existsb_exists. intros (e & He & Heq).
  apply String.eqb_eq in Heq as ->. by apply list_elem_of_In.
Qed.

(** The decoder on a white-space sequence. *)
Lemma DecodeRuneInString_space (e rest : string) :
  e ∈ space_encodings →
  ∃ r, DecodeRuneInString (e +:+ rest) = (r, String.length e)
       ∧ unicode_IsSpace r = true.
Proof.
  intros He. apply list_elem_of_In in He. vm_compute in He.
  repeat (destruct He as [<-|He];
          [eexists; split; [vm_compute; reflexivity|vm_compute; reflexivity]|]).
  done.
Qed.

Lemma space_enc1_enum :
  forallb (λ c, if negb (dr_multi c) && unicode_IsSpace (dr_rune1 c)
                then is_enc (String c "") else true) all_ascii = true.
Proof. vm_compute. reflexivity. Qed.

Lemma space_enc2_enum :
  forallb (λ a, if dr_multi a && (dr_sz a <=? 2)%nat then
                  forallb (λ b, if dr_accept a b && unicode_IsSpace (dr_rune2 a b)
                                then is_enc (String a (String b "")) else true)
                          all_ascii
                else true) all_ascii = true.
Proof. vm_compute. reflexivity. Qed.

Lemma space_enc3_enum :
  forallb (λ a, if dr_multi a && negb (dr_sz a <=? 2)%nat && (dr_sz a <=? 3)%nat
                   && (N.shiftr (dr_high3 a) 14 =? 0)%N then
                  forallb (λ b, if dr_accept a b then
                                  forallb (λ c, if dr_cont c
                                                   && unicode_IsSpace (dr_rune3 a b c)
                                                then is_enc (String a (String b (String c "")))
                                                else true)
                                          all_ascii
                                else true) all_ascii
                else true) all_ascii = true.
Proof. vm_compute. reflexivity. Qed.

Lemma space_enc4_enum :
  forallb (λ a, if dr_multi a && negb (dr_sz a <=? 3)%nat then
                  forallb (λ b, if dr_accept a b
                                then negb (N.shiftr (dr_high4 a b) 14 =? 0)%N
                                else true)
                          all_ascii
                else true) all_ascii = true.
Proof. vm_compute. reflexivity. Qed.

Lemma shiftr_lor_0_l (a b : N) (n : N) :
  N.shiftr (N.lor a b) n = 0%N → N.shiftr a n = 0%N.
Proof. rewrite N.shiftr_lor. intros H. by apply N.lor_eq_0_iff in H as [? _]. Qed.

(** A white-space rune is decoded only from a white-space sequence. *)
Lemma DecodeRuneInString_space_inv (s : string) (r : rune) (size : nat) :
  DecodeRuneInString s = (r, size) → unicode_IsSpace r = true →
  ∃ e rest, e ∈ space_encodings ∧ s = e +:+ rest ∧ String.length e = size.
Proof.
  destruct s as [|c0 t0]; [by intros [= <- <-]|].
  rewrite DecodeRuneInString_unfold.
  destruct (dr_multi c0) eqn:Hm; cbn [negb].
  - destruct (dr_sz_cases c0 Hm) as [Hs|[Hs|Hs]]; rewrite Hs.
    + case_match; [by intros [= <- <-]|].
      destruct t0 as [|c1 t1]; [by intros [= <- <-]|].
      destruct (dr_accept c0 c1) eqn:Ha; cbn [negb]; [|by intros [= <- <-]].
      simpl. intros [= <- <-] Hsp.
      pose proof (forall_ascii2 _ _ space_enc2_enum c0 c1) as He.
      simpl in He. rewrite Hm, Hs, Ha, Hsp in He.
      exists (String c0 (String c1 "")), t1.
      split; [apply elem_of_space_encodings; by apply He|done].
    + case_match; [by intros [= <- <-]|].
      destruct t0 as [|c1 t1]; [by intros [= <- <-]|].
      destruct (dr_accept c0 c1) eqn:Ha; cbn [negb]; [|by intros [= <- <-]].
      simpl.
      destruct t1 as [|c2 t2]; [by intros [= <- <-]|].
      destruct (dr_cont c2) eqn:Hc; cbn [negb]; [|by intros [= <- <-]].
      intros [= <- <-] Hsp.
      pose proof (unicode_IsSpace_small _ Hsp) as Hsmall.
      unfold dr_rune3 in Hsmall.
      do 2 apply shiftr_lor_0_l in Hsmall. apply N.eqb_eq in Hsmall.
      pose proof (forall_ascii3 _ _ _ space_enc3_enum c0 c1 c2) as He.
      simpl in He. rewrite Hm, Hs, Hsmall, Ha, Hc, Hsp in He.
      exists (String c0 (String c1 (String c2 ""))), t2.
      split; [apply elem_of_space_encodings; by apply He|done].
    + case_match; [by intros [= <- <-]|].
      destruct t0 as [|c1 t1]; [by intros [= <- <-]|].
      destruct (dr_accept c0 c1) eqn:Ha; cbn [negb]; [|by intros [= <- <-]].
      simpl.
      destruct t1 as [|c2 t2]; [by intros [= <- <-]|].
      destruct (dr_cont c2) eqn:Hc; cbn [negb]; [|by intros [= <- <-]].
      destruct t2 as [|c3 t3]; [by intros [= <- <-]|].
      destruct (dr_cont c3) eqn:Hc3; cbn [negb]; [|by intros [= <- <-]].
      intros [= <- <-] Hsp.
      pose proof (unicode_IsSpace_small _ Hsp) as Hsmall.
      do 2 apply shiftr_lor_0_l in Hsmall. apply N.eqb_eq in Hsmall.
      pose proof (forall_ascii2 _ _ space_enc4_enum c0 c1) as He.
      simpl in He. rewrite Hm, Hs, Ha, Hsmall in He. by specialize (He eq_refl).
  - intros [= <- <-] Hsp.
    pose proof (forall_ascii _ space_enc1_enum c0) as He.
    simpl in He. rewrite Hm, Hsp in He.
    exists (String c0 ""), t0.
    split; [by apply elem_of_space_encodings|done].
Qed.

(** *** The last rune of a text *)

Lemma rune_start_loop_le (s : string) (lim : Z) (fuel : nat) (start : Z) :
  (rune_start_loop s lim fuel start ≤ start)%Z.
Proof.
  revert start. induction fuel as [|fuel IH]; intros start; simpl; [lia|].
  repeat case_match; try lia. specialize (IH (start - 1)%Z). lia.
Qed.

Lemma rune_start_loop_finds (s : string) (lim : Z) (fuel : nat) (start j : Z) :
  (lim ≤ j)%Z → (j ≤ start)%Z → (start - j < Z.of_nat fuel)%Z →
  RuneStart (byte_at s (Z.to_nat j)) = true →
  (∀ k, (j < k ≤ start)%Z → RuneStart (byte_at s (Z.to_nat k)) = false) →
  rune_start_loop s lim fuel start = j.
Proof.
  revert start. induction fuel as [|fuel IH]; intros start Hlim Hj Hfuel Hstart Hcont;
    [lia|].
  simpl. rewrite (proj2 (Z.ltb_ge start lim)) by lia.
  destruct (decide (start = j)) as [->|Hne]; [by rewrite Hstart|].
  rewrite Hcont by lia. apply IH; try lia; [done|].
  intros k Hk. apply Hcont. lia.
Qed.

Lemma string_snoc (s : string) :
  s ≠ "" → ∃ front c, s = front +:+ String c "".
Proof.
  induction s as [|c s IH]; [done|]. intros _.
  destruct s as [|c' s'].
  - by exists "", c.
  - destruct IH as (front & c'' & ->); [done|].
    by exists (String c front), c''.
Qed.

Lemma string_split_at (n : nat) (s : string) :
  n ≤ String.length s →
  ∃ front u, s = front +:+ u ∧ String.length front = n
             ∧ string_drop n s = u ∧ string_take n s = front.
Proof.
  intros Hn. exists (string_take n s), (string_drop n s).
  rewrite string_take_drop, string_take_length. repeat split; try done. lia.
Qed.

(** The two ways in which [DecodeLastRuneInString] finds its result: the
    last byte is ASCII, or a tail [u] of the text is decoded forwards. *)
Lemma DecodeLastRuneInString_cases (s : string) :
  s ≠ "" →
  (∃ front c, s = front +:+ String c "" ∧ (byte_val c <? RuneSelf)%N = true
              ∧ DecodeLastRuneInString s = (byte_val c, 1))
  ∨ (∃ front u, s = front +:+ u ∧ u ≠ ""
                ∧ DecodeLastRuneInString s
                  = if (DecodeRuneInString u).2 =? String.length u
                    then DecodeRuneInString u else (RuneError, 1)).
Proof.
  intros Hne. destruct (string_snoc s Hne) as (front & c & Hs).
  assert (0 < String.length s) as Hlen by (destruct s; simpl; [done|lia]).
  unfold DecodeLastRuneInString.
  rewrite (proj2 (Z.eqb_neq _ 0)) by lia.
  assert (byte_at s (Z.to_nat (Z.of_nat (String.length s) - 1)) = byte_val c) as ->.
  { rewrite Hs, string_length_app. simpl.
    replace (Z.to_nat _) with (String.length front + 0) by lia.
    by rewrite byte_at_app_r. }
  destruct (byte_val c <? RuneSelf)%N eqn:Hc; [left; by exists front, c|].
  right.
  set (lim := if (Z.of_nat (String.length s) - UTFMax <? 0)%Z then 0%Z
              else (Z.of_nat (String.length s) - UTFMax)%Z).
  pose proof (rune_start_loop_le s lim 4 (Z.of_nat (String.length s) - 1 - 1))
    as Hle.
  set (res := rune_start_loop s lim 4 (Z.of_nat (String.length s) - 1 - 1)) in *.
  set (st := if (res <? 0)%Z then 0%Z else res).
  assert (0 ≤ st ≤ Z.of_nat (String.length s) - 1)%Z as Hst.
  { unfold st. destruct (res <? 0)%Z eqn:E; [lia|].
    apply Z.ltb_ge in E. lia. }
  destruct (string_split_at (Z.to_nat st) s) as (front' & u & Hs' & Hfront & Hdrop & _);
    [lia|].
  exists front', u. split; [done|].
  assert (String.length u = Z.to_nat (Z.of_nat (String.length s) - st)) as Hu.
  { rewrite <- Hdrop, string_drop_length. lia. }
  split; [destruct u; simpl in Hu; [lia|done]|].
  rewrite Hdrop, <- Hu, string_take_all by done.
  destruct (DecodeRuneInString u) as [r size]. simpl.
  destruct (decide (size = String.length u)) as [->|Hsize].
  - rewrite Nat.eqb_refl. rewrite (proj2 (Z.eqb_eq _ _)); [done|lia].
  - rewrite (proj2 (Nat.eqb_neq _ _)) by done.
    rewrite (proj2 (Z.eqb_neq _ _)); [done|lia].
Qed.

Lemma DecodeLastRuneInString_ascii (front : string) (c : ascii) :
  (byte_val c <? RuneSelf)%N = true →
  DecodeLastRuneInString (front +:+ String c "") = (byte_val c, 1).
Proof.
  intros Hc. unfold DecodeLastRuneInString.
  rewrite string_length_app. simpl.
  rewrite (proj2 (Z.eqb_neq _ 0)) by lia.
  replace (Z.to_nat _) with (String.length front + 0) by lia.
  by rewrite byte_at_app_r, byte_at_0, Hc.
Qed.

(** The last rune of a text that ends with a lead byte and its
    continuation bytes is found by decoding these bytes. *)
Lemma DecodeLastRuneInString_tail (front u : string) :
  2 ≤ String.length u ≤ 4 →
  RuneStart (byte_at u 0) = true →
  (∀ k, 0 < k < String.length u - 1 → RuneStart (byte_at u k) = false) →
  (byte_at u (String.length u - 1) <? RuneSelf)%N = false →
  DecodeLastRuneInString (front +:+ u)
  = if (DecodeRuneInString u).2 =? String.length u
    then DecodeRuneInString u else (RuneError, 1).
Proof.
  intros Hlen Hstart Hcont Hlast. unfold DecodeLastRuneInString.
  rewrite string_length_app.
  rewrite (proj2 (Z.eqb_neq _ 0)) by lia.
  replace (Z.to_nat (Z.of_nat (String.length front + String.length u) - 1))
    with (String.length front + (String.length u - 1)) by lia.
  rewrite byte_at_app_r, Hlast.
  set (lim := if (Z.of_nat (String.length front + String.length u) - UTFMax <? 0)%Z
              then 0%Z
              else (Z.of_nat (String.length front + String.length u) - UTFMax)%Z).
  assert (lim ≤ Z.of_nat (String.length front))%Z as Hlim.
  { unfold lim, UTFMax. case_match; lia. }
  rewrite (rune_start_loop_finds _ lim 4 _ (Z.of_nat (String.length front)));
    try lia.
  - rewrite (proj2 (Z.ltb_ge _ 0)) by lia.
    rewrite Nat2Z.id, string_drop_app.
    replace (Z.to_nat _) with (String.length u) by lia.
    rewrite string_take_all by done.
    destruct (DecodeRuneInString u) as [r size]. simpl.
    destruct (decide (size = String.length u)) as [->|Hsize].
    + rewrite Nat.eqb_refl. rewrite (proj2 (Z.eqb_eq _ _)); [done|lia].
    + rewrite (proj2 (Nat.eqb_neq _ _)) by done.
      rewrite (proj2 (Z.eqb_neq _ _)); [done|lia].
  - rewrite Nat2Z.id.
    replace (String.length front) with (String.length front + 0) by lia.
    by rewrite byte_at_app_r.
  - intros k Hk.
    replace (Z.to_nat k)
      with (String.length front + (Z.to_nat k - String.length front)) by lia.
    rewrite byte_at_app_r. apply Hcont. lia.
Qed.

(** What follows the last rune decides nothing: the bytes of the last rune,
    put before the start of any rune, decode with the same width. *)
Lemma DecodeLastRuneInString_width (s : string) (r : rune) (size : nat) :
  s ≠ "" → DecodeLastRuneInString s = (r, size) →
  ∃ front u, s = front +:+ u ∧ String.length u = size ∧ 1 ≤ size
             ∧ ∀ tail, starts_a_rune tail →
                       (DecodeRuneInString (u +:+ tail)).2 = size.
Proof.
  intros Hne Hdec.
  destruct (DecodeLastRuneInString_cases s Hne)
    as [(front & c & Hs & Hc & Hres)|(front & u & Hs & Hu & Hres)].
  - rewrite Hres in Hdec. injection Hdec as <- <-.
    exists front, (String c ""). repeat split; try done.
    intros tail Htail. rewrite string_app_cons, string_app_nil_l.
    by apply DecodeRuneInString_alone.
  - rewrite Hres in Hdec.
    destruct (DecodeRuneInString u) as [r' size'] eqn:Hu'. simpl in Hdec.
    destruct (size' =? String.length u) eqn:Hsize.
    + apply Nat.eqb_eq in Hsize. injection Hdec as <- <-.
      pose proof (DecodeRuneInString_size u _ _ Hu Hu') as Hbound.
      exists front, u. repeat split; try done; try lia.
      intros tail Htail.
      destruct (decide (size' = 1)) as [->|Hbig].
      * destruct u as [|c [|c' u']]; simpl in Hsize; try lia.
        rewrite string_app_cons, string_app_nil_l.
        by apply DecodeRuneInString_alone.
      * by rewrite (DecodeRuneInString_app u tail r' size') by (done || lia).
    + injection Hdec as <- <-.
      destruct (string_snoc s Hne) as (front' & c & Hs').
      exists front', (String c ""). repeat split; try done.
      intros tail Htail. rewrite string_app_cons, string_app_nil_l.
      by apply DecodeRuneInString_alone.
Qed.

Lemma string_app_length_eq (e rest u : string) :
  u = e +:+ rest → String.length e = String.length u → rest = "" ∧ u = e.
Proof.
  intros -> Hlen. rewrite string_length_app in Hlen.
  destruct rest; simpl in Hlen; [|lia].
  by rewrite string_app_nil_r.
Qed.

(** A white-space rune is decoded backwards only from a white-space
    sequence at the end of the text. *)
Lemma DecodeLastRuneInString_space_inv (s : string) (r : rune) (size : nat) :
  s ≠ "" → DecodeLastRuneInString s = (r, size) → unicode_IsSpace r = true →
  ∃ front e, e ∈ space_encodings ∧ s = front +:+ e ∧ String.length e = size.
Proof.
  intros Hne Hdec Hsp.
  destruct (DecodeLastRuneInString_cases s Hne)
    as [(front & c & Hs & Hc & Hres)|(front & u & Hs & Hu & Hres)].
  - rewrite Hres in Hdec. injection Hdec as <- <-.
    pose proof (DecodeRuneInString_ascii c "" Hc) as Hfwd.
    destruct (DecodeRuneInString_space_inv _ _ _ Hfwd Hsp) as (e & rest & He & Heq & Hlen).
    destruct (string_app_length_eq e rest _ Heq Hlen) as [_ Hce].
    exists front, e. by rewrite <- Hce at 2.
  - rewrite Hres in Hdec.
    destruct (DecodeRuneInString u) as [r' size'] eqn:Hu'. simpl in Hdec.
    destruct (size' =? String.length u) eqn:Hsize.
    + apply Nat.eqb_eq in Hsize. injection Hdec as <- <-.
      destruct (DecodeRuneInString_space_inv _ _ _ Hu' Hsp)
        as (e & rest & He & Heq & Hlen).
      destruct (string_app_length_eq e rest u Heq) as [_ Hue]; [lia|].
      exists front, e. rewrite <- Hue at 2. by rewrite <- Hlen.
    + injection Hdec as <- <-. by rewrite RuneError_not_space in Hsp.
Qed.

(** A text that ends with a white-space sequence has a white-space rune
    as its last. *)
Lemma DecodeLastRuneInString_space (front e : string) :
  e ∈ space_encodings →
  ∃ r, DecodeLastRuneInString (front +:+ e) = (r, String.length e)
       ∧ unicode_IsSpace r = true.
Proof.
  intros He. apply list_elem_of_In in He. vm_compute in He.
  repeat (destruct He as [<-|He];
    [first
       [ rewrite DecodeLastRuneInString_ascii by reflexivity;
         eexists; split; [reflexivity|vm_compute; reflexivity]
       | rewrite DecodeLastRuneInString_tail;
         [eexists; split; [vm_compute; reflexivity|vm_compute; reflexivity]
         |simpl; lia
         |reflexivity
         |simpl; intros k Hk;
          first [lia | (assert (k = 1) as -> by lia); reflexivity]
         |reflexivity] ]|]).
  done.
Qed.

(** *** Runs of white space *)

Lemma space_run_app (a b : string) :
  space_run a → space_run b → space_run (a +:+ b).
Proof.
  induction 1 as [|e t He Ht IH]; intros Hb; [done|].
  rewrite string_app_assoc. constructor; [done|by apply IH].
Qed.

Lemma space_run_one (e : string) : e ∈ space_encodings → space_run e.
Proof.
  intros He. rewrite <- (string_app_nil_r e). constructor; [done|constructor].
Qed.

Lemma space_encoding_shape (e : string) :
  e ∈ space_encodings → 1 ≤ String.length e ∧ starts_a_rune e.
Proof.
  intros He. apply list_elem_of_In in He. vm_compute in He.
  repeat (destruct He as [<-|He]; [split; [simpl; lia|reflexivity]|]).
  done.
Qed.

Lemma space_encoding_nonempty_app (e rest : string) :
  e ∈ space_encodings → e +:+ rest ≠ "".
Proof.
  intros He Heq. apply space_encoding_shape in He as [Hlen _].
  apply (f_equal String.length) in Heq. rewrite string_length_app in Heq.
  simpl in Heq. lia.
Qed.

Lemma space_run_starts (t : string) : space_run t → starts_a_rune t.
Proof.
  destruct 1 as [|e t He Ht]; [done|].
  apply space_encoding_shape in He as [Hlen Hstart].
  destruct e as [|c e]; [simpl in Hlen; lia|]. by rewrite string_app_cons.
Qed.

Lemma asciiSpace_encoding (c : ascii) :
  asciiSpace c = true → String c "" ∈ space_encodings.
Proof.
  intros Hc. apply elem_of_space_encodings.
  destruct c as [[] [] [] [] [] [] [] []]; try discriminate Hc; reflexivity.
Qed.

Lemma all_space_run (s : string) : all_space s = true → space_run s.
Proof.
  unfold all_space.
  induction s as [|c s IH]; intros Hs; [constructor|].
  simpl in Hs. apply andb_prop in Hs as [Hc Hs].
  change (String c s) with (String c "" +:+ s).
  constructor; [by apply asciiSpace_encoding|by apply IH].
Qed.

(** *** Trimming on the left *)

Lemma indexFunc_loop_space (fuel : nat) (rest : string) (i : nat) :
  String.length rest ≤ fuel →
  match indexFunc_loop fuel rest i unicode_IsSpace false with
  | Some j =>
      ∃ pre rest', rest = pre +:+ rest' ∧ space_run pre
                   ∧ j = i + String.length pre ∧ rest' ≠ ""
                   ∧ unicode_IsSpace (DecodeRuneInString rest').1 = false
  | None => space_run rest
  end.
Proof.
  revert rest i. induction fuel as [|fuel IH]; intros rest i Hfuel.
  { destruct rest; simpl in *; [constructor|lia]. }
  destruct rest as [|c t]; [constructor|].
  cbn [indexFunc_loop].
  destruct (DecodeRuneInString (String c t)) as [r size] eqn:Hdec.
  destruct (unicode_IsSpace r) eqn:Hsp; cbn [Bool.eqb].
  - destruct (DecodeRuneInString_space_inv _ _ _ Hdec Hsp)
      as (e & rest1 & He & Heq & Hlen).
    rewrite Heq, <- Hlen, string_drop_app.
    pose proof (space_encoding_shape e He) as [Hpos _].
    assert (String.length rest1 ≤ fuel) as Hfuel1.
    { apply (f_equal String.length) in Heq.
      rewrite string_length_app in Heq. simpl in *. lia. }
    specialize (IH rest1 (i + String.length e) Hfuel1).
    destruct (indexFunc_loop fuel rest1 _ _ _) as [j|].
    + destruct IH as (pre & rest' & -> & Hpre & -> & Hne & Hns).
      exists (e +:+ pre), rest'. rewrite string_app_assoc, string_length_app.
      repeat split; try done; try lia. by constructor.
    + by constructor.
  - exists "", (String c t). rewrite Hdec.
    repeat split; try done; try lia. constructor.
Qed.

(** [TrimLeftFunc] with [unicode.IsSpace] cuts a run of white space and
    leaves a text that does not start with white space. *)
Lemma strings_TrimLeftFunc_space (s : string) :
  ∃ pre, s = pre +:+ strings_TrimLeftFunc s unicode_IsSpace
         ∧ space_run pre
         ∧ ∀ e rest, e ∈ space_encodings →
                     strings_TrimLeftFunc s unicode_IsSpace ≠ e +:+ rest.
Proof.
  unfold strings_TrimLeftFunc, indexFunc.
  pose proof (indexFunc_loop_space (String.length s) s 0 (le_n _)) as Hloop.
  destruct (indexFunc_loop _ s 0 _ _) as [j|].
  - destruct Hloop as (pre & rest' & -> & Hpre & -> & Hne & Hns).
    simpl. rewrite string_drop_app. exists pre. repeat split; try done.
    intros e rest He ->.
    destruct (DecodeRuneInString_space e rest He) as (r & Hdec & Hsp).
    rewrite Hdec in Hns. simpl in Hns. congruence.
  - exists s. rewrite string_app_nil_r. repeat split; try done.
    intros e rest He Heq. by apply (space_encoding_nonempty_app e rest).
Qed.

(** *** Trimming on the right *)

Lemma lastIndexFunc_loop_space (fuel : nat) (s0 post : string) :
  String.length s0 ≤ fuel →
  match lastIndexFunc_loop fuel (s0 +:+ post) (String.length s0)
          unicode_IsSpace false with
  | Some k =>
      ∃ kept mid r size,
        s0 = kept +:+ mid ∧ space_run mid ∧ kept ≠ ""
        ∧ DecodeLastRuneInString kept = (r, size)
        ∧ unicode_IsSpace r = false ∧ k = String.length kept - size
  | None => space_run s0
  end.
Proof.
  revert s0 post. induction fuel as [|fuel IH]; intros s0 post Hfuel.
  { destruct s0; simpl in *; [constructor|lia]. }
  cbn [lastIndexFunc_loop].
  destruct s0 as [|c t] eqn:Hs0; [constructor|]. rewrite <- Hs0 in *.
  assert (s0 ≠ "") as Hne by (by rewrite Hs0).
  rewrite (proj2 (Nat.ltb_lt 0 (String.length s0)))
    by (rewrite Hs0; simpl; lia).
  rewrite string_take_app.
  destruct (DecodeLastRuneInString s0) as [r size] eqn:Hdec.
  destruct (unicode_IsSpace r) eqn:Hsp; cbn [Bool.eqb].
  - destruct (DecodeLastRuneInString_space_inv _ _ _ Hne Hdec Hsp)
      as (front & e & He & Heq & Hlen).
    pose proof (space_encoding_shape e He) as [Hpos _].
    rewrite Heq, string_length_app, <- Hlen, string_app_assoc.
    replace (String.length front + String.length e - String.length e)
      with (String.length front) by lia.
    assert (String.length front ≤ fuel) as Hfuel1.
    { apply (f_equal String.length) in Heq.
      rewrite string_length_app in Heq. lia. }
    specialize (IH front (e +:+ post) Hfuel1).
    destruct (lastIndexFunc_loop fuel _ _ _ _) as [k|].
    + destruct IH as (kept & mid & r' & size' & -> & Hmid & Hkept & Hd & Hns & ->).
      exists kept, (mid +:+ e), r', size'. rewrite string_app_assoc.
      repeat split; try done.
      apply space_run_app; [done|by apply space_run_one].
    + apply space_run_app; [done|by apply space_run_one].
  - exists s0, "", r, size. rewrite string_app_nil_r.
    repeat split; try done. constructor.
Qed.

(** [TrimRightFunc] with [unicode.IsSpace] cuts a run of white space and
    leaves a text that does not end with white space. *)
Lemma strings_TrimRightFunc_space (s : string) :
  ∃ post, s = strings_TrimRightFunc s unicode_IsSpace +:+ post
          ∧ space_run post
          ∧ ∀ e front, e ∈ space_encodings →
                       strings_TrimRightFunc s unicode_IsSpace ≠ front +:+ e.
Proof.
  unfold strings_TrimRightFunc, lastIndexFunc.
  pose proof (lastIndexFunc_loop_space (String.length s) s "" (le_n _)) as Hloop.
  rewrite string_app_nil_r in Hloop.
  destruct (lastIndexFunc_loop _ s _ _ _) as [k|].
  - destruct Hloop as (kept & mid & r & size & -> & Hmid & Hkept & Hdec & Hns & ->).
    destruct (DecodeLastRuneInString_width kept r size Hkept Hdec)
      as (front & u & -> & Hlen & Hpos & Hwid).
    rewrite string_length_app, Hlen.
    replace (String.length front + size - size)
      with (String.length front + 0) by lia.
    rewrite string_app_assoc, byte_at_app_r.
    rewrite Nat.add_0_r, string_drop_app.
    destruct u as [|c u']; [simpl in Hlen; lia|].
    rewrite string_app_cons, byte_at_0.
    assert ((if (RuneSelf <=? byte_val c)%N
             then let '(_, wid) := DecodeRuneInString (String c (u' +:+ mid))
                  in String.length front + wid
             else String.length front + 1)
            = String.length (front +:+ String c u')) as ->.
    { rewrite string_length_app, Hlen.
      destruct (RuneSelf <=? byte_val c)%N eqn:Hc.
      - specialize (Hwid mid (space_run_starts mid Hmid)).
        rewrite string_app_cons in Hwid.
        destruct (DecodeRuneInString (String c (u' +:+ mid))) as [r' wid].
        simpl in Hwid. by rewrite Hwid.
      - apply N.leb_gt in Hc. apply N.ltb_lt in Hc.
        specialize (Hwid "" I). rewrite string_app_cons in Hwid.
        rewrite DecodeRuneInString_ascii in Hwid by done.
        simpl in Hwid. by rewrite Hwid. }
    rewrite <- string_app_cons, <- string_app_assoc, string_take_app.
    exists mid. repeat split; try done.
    intros e front' He Heq.
    destruct (DecodeLastRuneInString_space front' e He) as (r' & Hdec' & Hsp).
    rewrite <- Heq, Hdec in Hdec'. injection Hdec' as -> _. congruence.
  - exists s. simpl. repeat split; try done.
    intros e front He Heq. symmetry in Heq.
    apply (f_equal String.length) in Heq. rewrite string_length_app in Heq.
    apply space_encoding_shape in He as [Hpos _]. simpl in Heq. lia.
Qed.

Lemma trim_scan_left_any (s : string) :
  ∃ pre,
    s = pre +:+ (trim_scan_left s).1
    ∧ all_space pre = true
    ∧ ((trim_scan_left s).2 = false →
       ∀ c, first_byte (trim_scan_left s).1 = Some c →
            is_ascii_byte c = true ∧ asciiSpace c = false).
Proof.
  induction s as [|c s IH]; [by exists ""|].
  cbn [trim_scan_left].
  destruct (is_ascii_byte c) eqn:Hc; cbn [negb]; [|by exists ""].
  destruct (asciiSpace c) eqn:Hsp.
  - destruct IH as (pre & Heq & Hpre & Hfirst).
    exists (String c pre). rewrite string_app_cons, <- Heq.
    split; [done|]. split; [|done].
    unfold all_space in *. simpl. by rewrite Hsp.
  - exists "". simpl. split; [done|]. split; [done|].
    intros _ c' [= <-]. done.
Qed.

Lemma trim_scan_right_any (s : string) :
  ∃ post,
    s = (trim_scan_right s).1 +:+ post
    ∧ all_space post = true
    ∧ ((trim_scan_right s).2 = false →
       ∀ c, last_byte (trim_scan_right s).1 = Some c →
            is_ascii_byte c = true ∧ asciiSpace c = false).
Proof.
  induction s as [|c s IH]; [by exists ""|].
  destruct IH as (post & Heq & Hpost & Hlast).
  cbn [trim_scan_right].
  destruct (trim_scan_right s) as [[|x t] slow]; simpl in *.
  - rewrite string_app_nil_l in Heq. subst post.
    destruct (is_ascii_byte c) eqn:Hc; cbn [negb].
    + destruct (asciiSpace c) eqn:Hsp; simpl.
      * exists (String c s). rewrite string_app_nil_l.
        repeat split; try done. unfold all_space in *. simpl. by rewrite Hsp.
      * exists s. split; [done|]. split; [done|].
        intros _ c' [= <-]. done.
    + exists s. simpl. repeat split; try done.
  - exists post. rewrite !string_app_cons, <- string_app_cons, <- Heq.
    split; [done|]. split; [done|]. exact Hlast.
Qed.

Lemma space_encoding_ends (e : string) :
  e ∈ space_encodings →
  ∃ c0 c1, first_byte e = Some c0 ∧ last_byte e = Some c1
           ∧ (is_ascii_byte c0 && negb (asciiSpace c0) = false)
           ∧ (is_ascii_byte c1 && negb (asciiSpace c1) = false).
Proof.
  intros He. apply list_elem_of_In in He. vm_compute in He.
  repeat (destruct He as [<-|He]; [do 2 eexists; repeat split; reflexivity|]).
  done.
Qed.

Lemma no_space_prefix (seg : string) :
  (∀ c, first_byte seg = Some c → is_ascii_byte c = true ∧ asciiSpace c = false) →
  ∀ e rest, e ∈ space_encodings → seg ≠ e +:+ rest.
Proof.
  intros Hfirst e rest He ->.
  destruct (space_encoding_ends e He) as (c0 & _ & Hc0 & _ & Hbad & _).
  destruct (Hfirst c0 (first_byte_app _ _ _ Hc0)) as [Ha Hs].
  by rewrite Ha, Hs in Hbad.
Qed.

Lemma no_space_suffix (seg : string) :
  (∀ c, last_byte seg = Some c → is_ascii_byte c = true ∧ asciiSpace c = false) →
  ∀ e front, e ∈ space_encodings → seg ≠ front +:+ e.
Proof.
  intros Hlast e front He ->.
  destruct (space_encoding_ends e He) as (_ & c1 & _ & Hc1 & _ & Hbad).
  assert (e ≠ "") as Hne by (by destruct e).
  rewrite last_byte_app in Hlast by done.
  destruct (Hlast c1 Hc1) as [Ha Hs]. by rewrite Ha, Hs in Hbad.
Qed.

(** [strings.TrimSpace] strips the white space, as Unicode defines it, of
    both ends of any text. *)
Lemma strings_TrimSpace_stripped (s : string) :
  stripped_unicode s (strings_TrimSpace s).
Proof.
  unfold strings_TrimSpace.
  destruct (trim_scan_left_any s) as (pre & Hs & Hpre & Hfirst).
  destruct (trim_scan_left s) as [rest [|]]; simpl in *.
  - unfold strings_TrimFunc.
    destruct (strings_TrimLeftFunc_space rest) as (pre' & Hrest & Hpre' & Hnopre).
    destruct (strings_TrimRightFunc_space (strings_TrimLeftFunc rest unicode_IsSpace))
      as (post & Hleft & Hpost & Hnosuf).
    exists (pre +:+ pre'), post. split; [|split; [|split; [done|split; [|done]]]].
    + rewrite string_app_assoc, <- Hleft, <- Hrest. done.
    + apply space_run_app; [by apply all_space_run|done].
    + intros e x He Heq. apply (Hnopre e (x +:+ post) He).
      rewrite Hleft, Heq. by rewrite string_app_assoc.
  - specialize (Hfirst eq_refl).
    destruct (trim_scan_right_any rest) as (post & Hrest & Hpost & Hlast).
    destruct (trim_scan_right rest) as [kept [|]]; simpl in *.
    + destruct (strings_TrimRightFunc_space kept) as (post' & Hkept & Hpost' & Hnosuf).
      exists pre, (post' +:+ post).
      split; [|split; [by apply all_space_run|split; [|split; [|done]]]].
      * etrans; [exact Hs|]. f_equal. etrans; [exact Hrest|].
        rewrite Hkept at 1. by rewrite string_app_assoc.
      * apply space_run_app; [done|by apply all_space_run].
      * intros e x He Heq.
        apply (no_space_prefix rest Hfirst e (x +:+ post' +:+ post) He).
        etrans; [exact Hrest|]. rewrite Hkept at 1. rewrite Heq.
        by rewrite !string_app_assoc.
    + specialize (Hlast eq_refl).
      exists pre, post.
      split; [by rewrite <- Hrest|].
      split; [by apply all_space_run|]. split; [by apply all_space_run|].
      split; [|by apply no_space_suffix].
      intros e x He Heq.
      apply (no_space_prefix rest Hfirst e (x +:+ post) He).
      rewrite Hrest, Heq. by rewrite string_app_assoc.
Qed.


(** C4: the message segment of the line is the message with its leading
    and trailing white space stripped ([strings.TrimSpace]) when
    [DisableTrimMessages] is false, and the message as it is when true.
    Stripped is meant as Unicode has it, for every message: the message is
    a run of encoded white-space code points, the segment, and another such
    run, and the segment neither starts nor ends with an encoded
    white-space code point; for a message of ASCII bytes the runs are of
    the six ASCII white-space bytes.  So the message [ hello ] gives
    [hello] with trimming and [ hello ] without, and a message with
    accented letters between a no-break space and an ideographic space
    gives the letters. *)
Theorem message_segment_trimmed `{Runtime} `{MapRange}
    (f : Formatter) (entry : Entry) :
  @Format _ _ logrus_names f entry
  = Returned (@line_head _ _ logrus_names f entry
              +:+ message_segment f (Message entry)
              +:+ line_tail f entry, err_nil)
  ∧ message_segment f (Message entry)
    = (if DisableTrimMessages f then Message entry
       else strings_TrimSpace (Message entry))
  ∧ stripped_unicode (Message entry) (strings_TrimSpace (Message entry))
  ∧ (string_forallb is_ascii_byte (Message entry) = true →
     stripped (Message entry) (strings_TrimSpace (Message entry)))
  ∧ strings_TrimSpace " hello " = "hello"
  ∧ strings_TrimSpace (" " +:+ ete +:+ " ") = ete
  ∧ strings_TrimSpace (no_break_space +:+ ete +:+ ideographic_space) = ete
  ∧ sample_Format
      {| FieldsOrder := None; TimestampFormat := ""; HideKeys := false;
         NoColors := true; DisableTrimMessages := false |}
      (sample_entry InfoLevel [] " hello " None)
    = Returned ("[10:30:00] [INFO] " +:+ "hello" +:+ String LF "", err_nil)
  ∧ sample_Format
      {| FieldsOrder := None; TimestampFormat := ""; HideKeys := false;
         NoColors := true; DisableTrimMessages := false |}
      (sample_entry InfoLevel [] (" " +:+ ete +:+ " ") None)
    = Returned ("[10:30:00] [INFO] " +:+ ete +:+ String LF "", err_nil)
  ∧ sample_Format
      {| FieldsOrder := None; TimestampFormat := ""; HideKeys := false;
         NoColors := true; DisableTrimMessages := true |}
      (sample_entry InfoLevel [] " hello " None)
    = Returned ("[10:30:00] [INFO] " +:+ " hello " +:+ String LF "", err_nil).
Proof.
  split; [apply Format_logrus_returns|].
  split; [done|].
  split; [apply strings_TrimSpace_stripped|].
  split; [apply strings_TrimSpace_ascii|].
  repeat split; by vm_compute.
Qed.

Lemma message_segment_trimmed_witness :
  stripped " hello " (strings_TrimSpace " hello ").
Proof.
  apply (proj1 (proj2 (proj2 (proj2
    (@message_segment_trimmed sample_runtime trie_order default_Formatter
       (sample_entry InfoLevel [] " hello " None)))))).
  vm_compute. reflexivity.
Defined.

(** ** The end of the line *)

Lemma trailing_count_snoc (c : ascii) (s : string) :
  trailing_count c (s +:+ String c "") = S (trailing_count c s).
Proof.
  induction s as [|x s IH].
  - simpl. by rewrite Ascii.eqb_refl.
  - rewrite string_app_cons. cbn [trailing_count].
    rewrite string_forallb_app. simpl. rewrite Ascii.eqb_refl. simpl.
    rewrite andb_true_r.
    destruct (string_forallb (Ascii.eqb c) s); [|done].
    rewrite string_length_app. simpl.
    destruct (Ascii.eqb c x); lia.
Qed.

Lemma last_byte_all (c : ascii) (s : string) :
  string_forallb (Ascii.eqb c) s = true → s ≠ "" → last_byte s = Some c.
Proof.
  induction s as [|x s IH]; intros Hall Hne; [done|].
  simpl in Hall. apply andb_prop in Hall as [Hx Hs].
  apply Ascii.eqb_eq in Hx as <-.
  destruct s as [|y s]; [done|].
  change (last_byte (String c (String y s))) with (last_byte (String y s)).
  by apply IH.
Qed.

Lemma trailing_count_zero (c : ascii) (s : string) :
  last_byte s ≠ Some c → trailing_count c s = 0.
Proof.
  induction s as [|x s IH]; intros Hlast; [done|].
  cbn [trailing_count].
  destruct s as [|y s].
  - simpl in *. destruct (Ascii.eqb c x) eqn:E; [|done].
    apply Ascii.eqb_eq in E as ->. done.
  - change (last_byte (String x (String y s))) with (last_byte (String y s))
      in Hlast.
    destruct (string_forallb (Ascii.eqb c) (String y s)) eqn:Hall.
    + exfalso. apply Hlast. by apply last_byte_all.
    + by apply IH.
Qed.

Section line_end.
Context `{Runtime} `{MapRange} `{LevelStringer}.
Implicit Types (f : Formatter) (entry : Entry).

Lemma last_byte_after_space f entry (x : string) names :
  last_byte (x +:+ " " +:+ fields_text f entry names) = Some " "%char.
Proof.
  revert x. induction names as [|k names IH]; intros x.
  - simpl. rewrite string_app_nil_r. apply last_byte_snoc.
  - simpl. unfold field_text at 1.
    rewrite (string_app_assoc _ " " (fields_text f entry names)).
    rewrite <- (string_app_assoc " "), <- (string_app_assoc x).
    apply IH.
Qed.

Lemma field_segment_names f entry :
  ∃ names, field_segment f entry = fields_text f entry names
           ∧ ∀ k, k ∈ names → is_Some (Data entry !! k).
Proof.
  unfold field_segment. destruct (FieldsOrder f) as [order|].
  - rewrite writeOrderedFields_text, string_app_nil_l. simpl.
    eexists. split; [done|].
    intros k [Hk|Hk]%elem_of_app.
    + by apply present_in_elem in Hk as [? _].
    + case_decide; [|by apply elem_of_nil in Hk].
      unfold remaining_fields in Hk.
      rewrite sort_Strings_Permutation, list_elem_of_filter in Hk.
      apply range_keys_elem, Hk.
  - rewrite writeFields_text, string_app_nil_l.
    eexists. split; [done|].
    intros k Hk. rewrite sort_Strings_Permutation in Hk.
    by apply range_keys_elem.
Qed.

(** The head of a line ends with a space or with the [m] of the reset. *)
Lemma line_head_last f entry :
  last_byte (line_head f entry) ≠ Some LF.
Proof.
  unfold line_head.
  destruct (field_segment_names f entry) as (names & -> & _).
  destruct (NoColors f).
  - rewrite string_app_nil_r, string_app_nil_l.
    rewrite <- !(string_app_assoc _ _ (" " +:+ _)).
    by rewrite last_byte_after_space.
  - rewrite <- !(string_app_assoc _ _ (sgr colorNone)).
    by rewrite last_byte_app.
Qed.

Lemma caller_segment_cases f entry :
  (HasCaller entry = false ∧ caller_segment f entry = "")
  ∨ (HasCaller entry = true
     ∧ ∃ c, Caller entry = Some c
            ∧ caller_segment f entry
              = (" (" +:+ File c +:+ ":" +:+ fmt_d (Line c) +:+ " "
                 +:+ Function c) +:+ ")").
Proof.
  unfold caller_segment, writeCaller.
  destruct (HasCaller entry) eqn:Hhas; [right|by left].
  split; [done|]. unfold HasCaller in Hhas.
  destruct (Logger entry); [|done].
  apply andb_prop in Hhas as [_ Hc]. apply bool_decide_eq_true in Hc as [c Hc].
  exists c. rewrite Hc. split; [done|].
  by rewrite string_app_nil_l, !string_app_assoc.
Qed.

(** A line has one line feed at its end, unless no caller is written and
    the message segment itself ends with a line feed. *)
Lemma rendered_line_end f entry :
  last_byte (rendered_line f entry) = Some LF
  ∧ (HasCaller entry = true
     ∨ last_byte (message_segment f (Message entry)) ≠ Some LF →
     trailing_count LF (rendered_line f entry) = 1).
Proof.
  unfold rendered_line, line_tail.
  rewrite <- !string_app_assoc. split; [apply last_byte_snoc|].
  intros Hcond. rewrite trailing_count_snoc. f_equal.
  apply trailing_count_zero.
  destruct (caller_segment_cases f entry)
    as [[Hno ->]|[_ (c & _ & ->)]].
  - rewrite string_app_nil_r.
    destruct Hcond as [Hhas|Hmsg]; [congruence|].
    destruct (message_segment f (Message entry)) as [|x seg] eqn:E.
    + rewrite string_app_nil_r. apply line_head_last.
    + by rewrite last_byte_app.
  - rewrite <- string_app_assoc. by rewrite last_byte_snoc.
Qed.
End line_end.

(** C2, with the line feeds of the message counted in: [Format] writes the
    message text (trimmed unless trimming is disabled) once, between the
    head of the line and its tail, neither of which depends on the message;
    the line ends with a line feed, and with one line feed only whenever a
    caller is written or the message text does not itself end with a line
    feed, as is the case for a trimmed ASCII message. *)
Theorem line_feed_and_message_once `{Runtime} `{MapRange}
    (f : Formatter) (entry : Entry) (msg : string) :
  ∃ out,
    @Format _ _ logrus_names f (with_Message msg entry) = Returned (out, err_nil)
    ∧ out = @line_head _ _ logrus_names f entry
            +:+ message_segment f msg
            +:+ (caller_segment f entry +:+ String LF "")
    ∧ last_byte out = Some LF
    ∧ (HasCaller entry = true ∨ last_byte (message_segment f msg) ≠ Some LF →
       trailing_count LF out = 1)
    ∧ (DisableTrimMessages f = false →
       string_forallb is_ascii_byte msg = true →
       trailing_count LF out = 1).
Proof.
  eexists. split; [apply Format_logrus_returns|].
  split; [done|].
  destruct (@rendered_line_end _ _ logrus_names f (with_Message msg entry))
    as [Hlast Hone].
  split; [done|]. split; [done|].
  intros Htrim Hascii. apply Hone. right. simpl.
  unfold message_segment. rewrite Htrim.
  destruct (strings_TrimSpace_ascii msg Hascii)
    as (pre & post & _ & _ & _ & _ & Hend).
  intros Hlf. by specialize (Hend LF Hlf).
Qed.

Lemma line_feed_and_message_once_witness :
  trailing_count LF
    (@line_head sample_runtime trie_order logrus_names default_Formatter
       (sample_entry InfoLevel [] "" None)
     +:+ message_segment default_Formatter "starting up"
     +:+ (@caller_segment sample_runtime default_Formatter
            (sample_entry InfoLevel [] "" None)
          +:+ String LF "")) = 1.
Proof.
  destruct (@line_feed_and_message_once sample_runtime trie_order
              default_Formatter (sample_entry InfoLevel [] "" None) "starting up")
    as (out & _ & -> & _ & Hone & _).
  apply Hone. right. vm_compute. discriminate.
Defined.

(** C2 does not hold for every record: with trimming disabled a message that ends
    with a line feed gives a line that ends with two, and a message text
    that also appears elsewhere in the line occurs more than once. *)
Lemma one_line_one_message_counterexample :
  (∃ out,
     sample_Format
       {| FieldsOrder := None; TimestampFormat := ""; HideKeys := false;
          NoColors := true; DisableTrimMessages := true |}
       (sample_entry InfoLevel [] ("done" +:+ String LF "") None)
     = Returned (out, err_nil)
     ∧ trailing_count LF out = 2
     ∧ ¬ one_line_one_message out ("done" +:+ String LF ""))
  ∧ (∃ out,
       sample_Format
         {| FieldsOrder := None; TimestampFormat := ""; HideKeys := false;
            NoColors := true; DisableTrimMessages := false |}
         (sample_entry InfoLevel [] "INFO" None)
       = Returned (out, err_nil)
       ∧ occurrences "INFO" out = 2
       ∧ ¬ one_line_one_message out "INFO").
Proof.
  split; eexists; (split; [by vm_compute|]); (split; [by vm_compute|]);
    unfold one_line_one_message; vm_compute; intros [? ?]; lia.
Qed.

(** ** Escape bytes *)

Lemma string_of_uint_no_ESC (d : Decimal.uint) :
  contains_byte ESC (NilEmpty.string_of_uint d) = false.
Proof. induction d; simpl; unfold contains_byte in *; simpl; done. Qed.

Lemma fmt_d_no_ESC (z : Z) : contains_byte ESC (fmt_d z) = false.
Proof.
  unfold fmt_d, NilZero.string_of_int, NilZero.string_of_uint.
  destruct (Z.to_int z) as [d|d].
  - destruct d; try apply string_of_uint_no_ESC. done.
  - change (String "-" ?s) with ("-" +:+ s).
    rewrite contains_byte_app.
    destruct d; try apply string_of_uint_no_ESC. done.
Qed.

Section escapes.
Context `{Runtime} `{MapRange}.
Implicit Types (f : Formatter) (entry : Entry).

Lemma logrus_tag_no_ESC entry :
  contains_byte ESC
    (String.substring 0 4 (@level_upper _ logrus_names entry)) = false.
Proof.
  destruct (logrus_level_tag (Level entry)) as [_ Htag].
  unfold level_upper. simpl.
  revert Htag.
  generalize (String.substring 0 4
                (strings_ToUpper (logrus_Level_String (Level entry)))).
  intros tag Htag.
  repeat (apply elem_of_cons in Htag as [->|Htag]; [done|]).
  by apply elem_of_nil in Htag.
Qed.

Lemma fields_text_no_ESC f entry names :
  (∀ k, k ∈ names →
     contains_byte ESC k = false
     ∧ contains_byte ESC (fmt_v (Data_at entry k)) = false) →
  contains_byte ESC (fields_text f entry names) = false.
Proof.
  induction names as [|k names IH]; intros Hclean; [done|].
  simpl. rewrite contains_byte_app.
  rewrite IH by (intros k' Hk'; apply Hclean; by right).
  destruct (Hclean k) as [Hk Hv]; [left|].
  unfold field_text.
  destruct (HideKeys f); rewrite !contains_byte_app, ?Hk, ?Hv; done.
Qed.

Lemma caller_segment_no_ESC f entry :
  (∀ c, Caller entry = Some c →
     contains_byte ESC (File c) = false
     ∧ contains_byte ESC (Function c) = false) →
  contains_byte ESC (caller_segment f entry) = false.
Proof.
  intros Hclean.
  destruct (caller_segment_cases f entry)
    as [[_ ->]|[_ (c & Hc & ->)]]; [done|].
  destruct (Hclean c Hc) as [Hfile Hfun].
  by rewrite !contains_byte_app, Hfile, Hfun, fmt_d_no_ESC.
Qed.
End escapes.

(** C5, for input free of escape bytes: with [NoColors] set, [Format]
    writes no escape byte of its own: the line has no ESC byte when the
    formatted time stamp, the names and the printed values of the fields,
    the message text and the file and function of the caller have none. *)
Theorem no_colors_no_escape `{Runtime} `{MapRange}
    (f : Formatter) (entry : Entry) :
  NoColors f = true →
  contains_byte ESC (timestamp_text f entry) = false →
  (∀ k v, Data entry !! k = Some v →
     contains_byte ESC k = false ∧ contains_byte ESC (fmt_v v) = false) →
  contains_byte ESC (message_segment f (Message entry)) = false →
  (∀ c, Caller entry = Some c →
     contains_byte ESC (File c) = false
     ∧ contains_byte ESC (Function c) = false) →
  ∃ out, @Format _ _ logrus_names f entry = Returned (out, err_nil)
         ∧ contains_byte ESC out = false.
Proof.
  intros Hnocol Htime Hfields Hmsg Hcaller.
  eexists. split; [apply Format_logrus_returns|].
  unfold rendered_line, line_head, line_tail. rewrite Hnocol.
  destruct (field_segment_names f entry)
    as (names & -> & Hnames).
  rewrite !contains_byte_app, Htime, Hmsg, logrus_tag_no_ESC.
  rewrite caller_segment_no_ESC by done.
  rewrite fields_text_no_ESC; [done|].
  intros k Hk. destruct (Hnames k Hk) as [v Hv].
  unfold Data_at. rewrite Hv. simpl. by apply Hfields.
Qed.

Lemma no_colors_no_escape_witness :
  ∃ out,
    sample_Format
      {| FieldsOrder := None; TimestampFormat := ""; HideKeys := false;
         NoColors := true; DisableTrimMessages := false |}
      (sample_entry InfoLevel [("id", VInt 42)] "ready"
         (Some {| File := "main.go"; Line := 10; Function := "main" |}))
    = Returned (out, err_nil)
    ∧ contains_byte ESC out = false.
Proof.
  apply (@no_colors_no_escape sample_runtime trie_order).
  - reflexivity.
  - vm_compute. reflexivity.
  - intros k v Hkv.
    destruct (decide (k = "id")) as [->|Hne].
    + vm_compute in Hkv. injection Hkv as <-. split; vm_compute; reflexivity.
    + unfold sample_entry in Hkv. simpl in Hkv.
      rewrite lookup_insert_ne in Hkv by done.
      by rewrite lookup_empty in Hkv.
  - vm_compute. reflexivity.
  - intros c Hc. injection Hc as <-. split; vm_compute; reflexivity.
Defined.

(** C5 does not hold for every record: an escape byte of the message is copied to
    the line whatever [NoColors] says. *)
Lemma no_colors_counterexample :
  ∃ out,
    sample_Format
      {| FieldsOrder := None; TimestampFormat := ""; HideKeys := false;
         NoColors := true; DisableTrimMessages := false |}
      (sample_entry InfoLevel [] (String ESC "[31m" +:+ "alert") None)
    = Returned (out, err_nil)
    ∧ contains_byte ESC out = true.
Proof. eexists. split; by vm_compute. Qed.

(** ** The caller suffix *)

(** X1: for an entry with a logger that reports callers and a caller
    frame, [writeCaller] adds [ (<file>:<line> <function>)] to the buffer,
    and the suffix is the last thing of the line before the line feed; for
    an entry without a caller frame [writeCaller] leaves the buffer as it
    is, and the line feed follows the message. *)
Theorem caller_suffix `{Runtime} `{MapRange}
    (f : Formatter) (b : string) (entry : Entry) :
  (∀ logger c,
     Logger entry = Some logger → ReportCaller logger = true →
     Caller entry = Some c →
     writeCaller f b entry
     = b +:+ " (" +:+ File c +:+ ":" +:+ fmt_d (Line c) +:+ " "
         +:+ Function c +:+ ")"
     ∧ ∃ before,
         @Format _ _ logrus_names f entry
         = Returned (before +:+ " (" +:+ File c +:+ ":" +:+ fmt_d (Line c)
                     +:+ " " +:+ Function c +:+ ")" +:+ String LF "", err_nil))
  ∧ (Caller entry = None →
     writeCaller f b entry = b
     ∧ @Format _ _ logrus_names f entry
       = Returned (@line_head _ _ logrus_names f entry
                   +:+ message_segment f (Message entry) +:+ String LF "",
                   err_nil)).
Proof.
  split.
  - intros logger c Hlogger Hrep Hc.
    assert (HasCaller entry = true) as Hhas.
    { unfold HasCaller. by rewrite Hlogger, Hrep, Hc. }
    split.
    + unfold writeCaller. by rewrite Hhas, Hc.
    + rewrite Format_logrus_returns. unfold rendered_line, line_tail.
      unfold caller_segment, writeCaller. rewrite Hhas, Hc, string_app_nil_l.
      eexists. by rewrite <- !string_app_assoc.
  - intros Hc.
    assert (writeCaller f b entry = b ∧ caller_segment f entry = "") as [Hw Hseg].
    { unfold caller_segment, writeCaller. rewrite Hc.
      by destruct (HasCaller entry). }
    split; [done|].
    rewrite Format_logrus_returns. unfold rendered_line, line_tail.
    by rewrite Hseg.
Qed.

Lemma caller_suffix_witness :
  (∃ before,
     sample_Format default_Formatter
       (sample_entry InfoLevel [] "ready"
          (Some {| File := "main.go"; Line := 10; Function := "main" |}))
     = Returned (before +:+ " (" +:+ "main.go" +:+ ":" +:+ fmt_d 10
                 +:+ " " +:+ "main" +:+ ")" +:+ String LF "", err_nil))
  ∧ sample_Format default_Formatter (sample_entry InfoLevel [] "ready" None)
    = Returned ("[10:30:00]" +:+ String ESC "[36m" +:+ " [INFO] "
                +:+ String ESC "[0m" +:+ "ready" +:+ String LF "", err_nil).
Proof.
  split.
  - apply (proj1 (@caller_suffix sample_runtime trie_order
                    default_Formatter ""
                    (sample_entry InfoLevel [] "ready"
                       (Some {| File := "main.go"; Line := 10;
                                Function := "main" |})))
             {| ReportCaller := true |}
             {| File := "main.go"; Line := 10; Function := "main" |});
      reflexivity.
  - apply (proj2 (@caller_suffix sample_runtime trie_order
                    default_Formatter ""
                    (sample_entry InfoLevel [] "ready" None))).
    reflexivity.
Defined.

(** ** The time stamp *)

(** X2: an empty [TimestampFormat] stands for the layout [15:04:05]: the
    two configurations give the same result; any other layout is handed to
    the time formatter as it is, and its text is what stands between the
    first brackets of the line. *)
Theorem timestamp_default_layout `{Runtime} `{MapRange} `{LevelStringer}
    (order : option (list string)) (hide nocolors notrim : bool)
    (layout : string) (entry : Entry) :
  Format {| FieldsOrder := order; TimestampFormat := ""; HideKeys := hide;
            NoColors := nocolors; DisableTrimMessages := notrim |} entry
  = Format {| FieldsOrder := order; TimestampFormat := "15:04:05";
              HideKeys := hide; NoColors := nocolors;
              DisableTrimMessages := notrim |} entry
  ∧ (layout ≠ "" → 4 ≤ String.length (level_upper entry) →
     ∃ rest,
       Format {| FieldsOrder := order; TimestampFormat := layout;
                 HideKeys := hide; NoColors := nocolors;
                 DisableTrimMessages := notrim |} entry
       = Returned ("[" +:+ Time_Format (Time entry) layout +:+ "]" +:+ rest,
                   err_nil)).
Proof.
  split.
  - destruct (decide (4 ≤ String.length (level_upper entry))) as [Hlen|Hlen].
    + by rewrite !Format_returns.
    + by rewrite !Format_panics by lia.
  - intros Hlayout Hlen. rewrite Format_returns by done.
    unfold rendered_line, line_head, timestamp_text. cbn [TimestampFormat].
    rewrite decide_False by done. eexists.
    by rewrite !string_app_assoc.
Qed.

Lemma timestamp_default_layout_witness :
  ∃ rest,
    sample_Format
      {| FieldsOrder := None; TimestampFormat := "15h04"; HideKeys := false;
         NoColors := true; DisableTrimMessages := false |}
      (sample_entry InfoLevel [] "ready" None)
    = Returned ("[" +:+ "10h30" +:+ "]" +:+ rest, err_nil).
Proof.
  apply (proj2 (@timestamp_default_layout sample_runtime trie_order logrus_names
                  None false true false "15h04"
                  (sample_entry InfoLevel [] "ready" None))).
  - discriminate.
  - vm_compute. lia.
Defined.

(** ** Which fields are printed, for any order list *)

(** X3: whatever the order list (nil, empty, with names the record lacks,
    with repeated names), the field segment is the text of
    [rendered_names], which does not depend on [HideKeys]; every name in it
    is a field of the record, so the nil value is never printed; a listed
    name of the record is printed once for each time it is listed; the
    fields that are not listed follow, sorted, when fewer names were
    printed from the list than the record has fields, and are left out
    otherwise. *)
Theorem field_segment_rendered_names `{Runtime} `{MapRange}
    (f : Formatter) (entry : Entry) :
  field_segment f entry
  = fields_text f entry (rendered_names (FieldsOrder f) entry)
  ∧ (∀ k, k ∈ rendered_names (FieldsOrder f) entry →
       ∃ v, Data entry !! k = Some v ∧ Data_at entry k = v)
  ∧ (∀ order, FieldsOrder f = Some order →
       (∀ k, is_Some (Data entry !! k) →
          length (filter (λ x, x = k) (rendered_names (Some order) entry))
          = if decide (k ∈ order) then length (filter (λ x, x = k) order)
            else if decide (length (present_in entry order) < size (Data entry))
                 then 1 else 0)).
Proof.
  split; [|split].
  - unfold field_segment, rendered_names. destruct (FieldsOrder f) as [order|] eqn:E.
    + rewrite writeOrderedFields_text, E, string_app_nil_l. simpl.
      do 2 f_equal. repeat case_decide; (done || lia).
    + by rewrite writeFields_text, string_app_nil_l.
  - intros k Hk.
    assert (is_Some (Data entry !! k)) as [v Hv].
    { unfold rendered_names in Hk. destruct (FieldsOrder f) as [order|].
      - apply elem_of_app in Hk as [Hk|Hk].
        + by apply present_in_elem in Hk as [? _].
        + case_decide; [|by apply elem_of_nil in Hk].
          unfold remaining_fields in Hk.
          rewrite sort_Strings_Permutation, list_elem_of_filter in Hk.
          apply range_keys_elem, Hk.
      - rewrite sort_Strings_Permutation in Hk. by apply range_keys_elem. }
    exists v. unfold Data_at. by rewrite Hv.
  - intros order _ k Hk. unfold rendered_names.
    rewrite filter_app, length_app.
    assert (filter (λ x, x = k) (present_in entry order)
            = filter (λ x, x = k) order) as ->.
    { unfold present_in. rewrite list_filter_filter.
      apply list_filter_iff. intros x. split; [tauto|]. by intros ->. }
    assert (∀ l : list string, k ∉ l → filter (λ x, x = k) l = []) as Hnone.
    { intros l Hl. induction l as [|x l IH]; [done|].
      apply not_elem_of_cons in Hl as [Hne Hl].
      rewrite filter_cons_False by congruence. by apply IH. }
    destruct (decide (k ∈ order)) as [Hin|Hout].
    + rewrite (Hnone (if decide _ then _ else _)); [simpl; lia|].
      case_decide; [|apply not_elem_of_nil].
      unfold remaining_fields.
      rewrite sort_Strings_Permutation, list_elem_of_filter. tauto.
    + rewrite (Hnone order Hout). simpl. case_decide; [|done].
      assert (NoDup (remaining_fields entry order)) as Hnd.
      { unfold remaining_fields. rewrite sort_Strings_Permutation.
        apply NoDup_filter, range_keys_NoDup. }
      assert (k ∈ remaining_fields entry order) as Hk'.
      { unfold remaining_fields.
        rewrite sort_Strings_Permutation, list_elem_of_filter.
        split; [done|]. by apply range_keys_elem. }
      revert Hnd Hk'. generalize (remaining_fields entry order) as l.
      induction l as [|x l IH]; intros Hnd Hk'; [by apply elem_of_nil in Hk'|].
      apply NoDup_cons in Hnd as [Hx Hnd].
      destruct (decide (x = k)) as [->|Hne].
      * rewrite filter_cons_True by done. by rewrite (Hnone l Hx).
      * rewrite filter_cons_False by done. apply IH; [done|].
        apply elem_of_cons in Hk' as [->|?]; done.
Qed.

Lemma field_segment_rendered_names_witness :
  length (filter (λ x, x = "a")
            (@rendered_names sample_runtime trie_order (Some ["a"; "a"])
               (sample_entry InfoLevel [("a", VInt 1); ("b", VInt 2)] "" None)))
  = 2.
Proof.
  apply (proj2 (proj2 (@field_segment_rendered_names sample_runtime trie_order
           {| FieldsOrder := Some ["a"; "a"]; TimestampFormat := "";
              HideKeys := false; NoColors := false;
              DisableTrimMessages := false |}
           (sample_entry InfoLevel [("a", VInt 1); ("b", VInt 2)] "" None)))
         ["a"; "a"] eq_refl "a").
  vm_compute. eauto.
Defined.

(** ** Records and order lists at the edges *)

(** X4: a record without fields has an empty field segment, whatever the
    order list: the message follows the level tag (and the colour reset, if
    any) directly. *)
Theorem no_fields_no_segment `{Runtime} `{MapRange}
    (f : Formatter) (entry : Entry) :
  Data entry = ∅ →
  field_segment f entry = ""
  ∧ @Format _ _ logrus_names f entry
    = Returned
        ("[" +:+ timestamp_text f entry +:+ "]"
         +:+ (if NoColors f then "" else sgr (getColorByLevel (Level entry)))
         +:+ " [" +:+ String.substring 0 4 (@level_upper _ logrus_names entry)
         +:+ "]" +:+ " "
         +:+ (if NoColors f then "" else sgr colorNone)
         +:+ message_segment f (Message entry)
         +:+ caller_segment f entry +:+ String LF "", err_nil).
Proof.
  intros Hempty.
  assert (field_segment f entry = "") as Hseg.
  { assert (∀ l, present_in entry l = []) as Hnone.
    { intros l. unfold present_in. induction l as [|x l IH]; [done|].
      rewrite filter_cons_False; [done|].
      rewrite Hempty, lookup_empty. by intros [? ?]. }
    unfold field_segment. destruct (FieldsOrder f) as [order|].
    - rewrite writeOrderedFields_text, string_app_nil_l, Hnone.
      by rewrite Hempty, map_size_empty.
    - rewrite writeFields_text, string_app_nil_l.
      rewrite range_keys_empty; [done|]. by rewrite Hempty, map_size_empty. }
  split; [done|].
  rewrite Format_logrus_returns. unfold rendered_line, line_head, line_tail.
  rewrite Hseg, string_app_nil_l. by rewrite !string_app_assoc.
Qed.

Lemma no_fields_no_segment_witness :
  sample_segment
    {| FieldsOrder := Some ["id"]; TimestampFormat := ""; HideKeys := false;
       NoColors := false; DisableTrimMessages := false |}
    (sample_entry InfoLevel [] "starting up" None) = "".
Proof.
  apply (@no_fields_no_segment sample_runtime trie_order). reflexivity.
Defined.

(** X5: the names of the order list that the record lacks change nothing:
    the order list without them gives the same field segment, and an order
    list with no name of the record gives the segment of the nil order
    list, all fields sorted. *)
Theorem absent_names_ignored `{Runtime} `{MapRange}
    (order : list string) (layout : string) (hide nocolors notrim : bool)
    (entry : Entry) :
  let with_order o := {| FieldsOrder := o; TimestampFormat := layout;
                         HideKeys := hide; NoColors := nocolors;
                         DisableTrimMessages := notrim |} in
  field_segment (with_order (Some order)) entry
  = field_segment (with_order (Some (present_in entry order))) entry
  ∧ (present_in entry order = [] →
     field_segment (with_order (Some order)) entry
     = field_segment (with_order None) entry).
Proof.
  intros with_order.
  assert (∀ l, present_in entry (present_in entry l) = present_in entry l)
    as Hidem.
  { intros l. unfold present_in. rewrite list_filter_filter.
    apply list_filter_iff. tauto. }
  assert (remaining_fields entry (present_in entry order)
          = remaining_fields entry order) as Hrest.
  { unfold remaining_fields. f_equal. apply filter_ext_elem.
    intros k Hk. apply range_keys_elem in Hk. rewrite present_in_elem. tauto. }
  split.
  - unfold field_segment. simpl.
    rewrite !writeOrderedFields_text. simpl. rewrite Hidem, Hrest.
    by rewrite (fields_text_HideKeys (with_order (Some order))
                  (with_order (Some (present_in entry order)))).
  - intros Hnone. unfold field_segment. simpl.
    rewrite writeOrderedFields_text, writeFields_text, !string_app_nil_l.
    simpl. rewrite Hnone. simpl.
    rewrite (fields_text_HideKeys (with_order (Some order)) (with_order None))
      by done.
    f_equal. case_decide as Hsz.
    + unfold remaining_fields.
      apply (f_equal sort_Strings).
      transitivity (filter (λ field, field ∉ []) (range_keys (Data entry)));
        [|apply filter_not_in_nil].
      apply filter_ext_elem. intros k Hk. apply range_keys_elem in Hk.
      split; [intros _; apply not_elem_of_nil|].
      intros _ Hin.
      assert (k ∈ present_in entry order) as Hp by by apply present_in_elem.
      rewrite Hnone in Hp. by apply elem_of_nil in Hp.
    + rewrite range_keys_empty; [done|]. lia.
Qed.

Lemma absent_names_ignored_witness :
  sample_segment
    {| FieldsOrder := Some ["host"; "pid"]; TimestampFormat := "";
       HideKeys := false; NoColors := false; DisableTrimMessages := false |}
    (sample_entry InfoLevel [("user", VString "alice"); ("id", VInt 42)] "" None)
  = sample_segment
      {| FieldsOrder := None; TimestampFormat := "";
         HideKeys := false; NoColors := false; DisableTrimMessages := false |}
      (sample_entry InfoLevel [("user", VString "alice"); ("id", VInt 42)] "" None).
Proof.
  apply (proj2 (@absent_names_ignored sample_runtime trie_order ["host"; "pid"]
                  "" false false false
                  (sample_entry InfoLevel
                     [("user", VString "alice"); ("id", VInt 42)] "" None))).
  vm_compute. reflexivity.
Defined.

(** X6: an order list that names every field of the record, none of them
    twice, decides the whole sequence: the segment is the fields in the
    sequence of the list, and nothing is sorted. *)
Theorem complete_order_list `{Runtime} `{MapRange}
    (f : Formatter) (entry : Entry) (order : list string) :
  FieldsOrder f = Some order →
  NoDup (present_in entry order) →
  (∀ k, is_Some (Data entry !! k) → k ∈ order) →
  field_segment f entry = fields_text f entry (present_in entry order).
Proof.
  intros Horder Hnd Hall. unfold field_segment. rewrite Horder.
  rewrite (writeOrderedFields_NoDup_text f "" entry order) by done.
  rewrite string_app_nil_l. f_equal.
  assert (filter (λ field, field ∉ order) (range_keys (Data entry)) = []) as Hno.
  { destruct (filter _ (range_keys (Data entry))) as [|k l] eqn:E; [done|].
    assert (k ∈ filter (λ field, field ∉ order) (range_keys (Data entry)))
      as Hk by (rewrite E; left).
    apply list_elem_of_filter in Hk as [Hout Hk].
    apply range_keys_elem in Hk. by apply Hall in Hk. }
  unfold remaining_fields. rewrite Hno. by rewrite app_nil_r.
Qed.

Lemma complete_order_list_witness :
  sample_segment
    {| FieldsOrder := Some ["user"; "id"]; TimestampFormat := "";
       HideKeys := false; NoColors := false; DisableTrimMessages := false |}
    (sample_entry InfoLevel [("id", VInt 42); ("user", VString "alice")] "" None)
  = "[user:alice] [id:42] ".
Proof.
  unfold sample_segment.
  rewrite (@complete_order_list sample_runtime trie_order _ _ ["user"; "id"]).
  - vm_compute. reflexivity.
  - reflexivity.
  - apply (bool_decide_unpack _). vm_compute. exact I.
  - intros k [v Hv].
    destruct (decide (k = "id")) as [->|Hid]; [set_solver|].
    destruct (decide (k = "user")) as [->|Huser]; [set_solver|].
    unfold sample_entry in Hv. simpl in Hv.
    rewrite !lookup_insert_ne in Hv by done. by rewrite lookup_empty in Hv.
Defined.

(** ** The buffer *)

(** X7: the four writers only append: what is in the buffer before a call
    is a prefix of the buffer after it, and the text added does not depend
    on what the buffer held. *)
Theorem writers_only_append `{Runtime} `{MapRange}
    (f : Formatter) (b : string) (entry : Entry) (field : string) :
  writeField f b entry field = b +:+ writeField f "" entry field
  ∧ writeFields f b entry = b +:+ writeFields f "" entry
  ∧ writeOrderedFields f b entry = b +:+ writeOrderedFields f "" entry
  ∧ writeCaller f b entry = b +:+ writeCaller f "" entry.
Proof.
  split; [|split; [|split]].
  - by rewrite (writeField_text f b), (writeField_text f ""), string_app_nil_l.
  - by rewrite (writeFields_text f b), (writeFields_text f ""), string_app_nil_l.
  - by rewrite (writeOrderedFields_text f b), (writeOrderedFields_text f ""),
      string_app_nil_l.
  - apply writeCaller_text.
Qed.

(** ** Colours, again *)

Lemma field_segment_config `{Runtime} `{MapRange} (f1 f2 : Formatter)
    (entry : Entry) :
  FieldsOrder f1 = FieldsOrder f2 → HideKeys f1 = HideKeys f2 →
  field_segment f1 entry = field_segment f2 entry.
Proof.
  intros Horder Hhide. unfold field_segment. rewrite <- Horder.
  destruct (FieldsOrder f1) as [order|] eqn:E.
  - rewrite !writeOrderedFields_text, <- Horder, E.
    by rewrite (fields_text_HideKeys f1 f2).
  - rewrite !writeFields_text. by rewrite (fields_text_HideKeys f1 f2).
Qed.

(** X8: [NoColors] takes the two colour sequences out of the line and
    changes nothing else: the line with colours is the line without them
    with ESC[<n>m put after the time stamp and ESC[0m put before the
    message. *)
Theorem no_colors_only_drops_codes `{Runtime} `{MapRange}
    (order : option (list string)) (layout : string) (hide notrim : bool)
    (entry : Entry) :
  let config nocolors :=
    {| FieldsOrder := order; TimestampFormat := layout; HideKeys := hide;
       NoColors := nocolors; DisableTrimMessages := notrim |} in
  ∃ stamp middle final,
    @Format _ _ logrus_names (config true) entry
    = Returned (stamp +:+ middle +:+ final, err_nil)
    ∧ @Format _ _ logrus_names (config false) entry
      = Returned (stamp +:+ sgr (getColorByLevel (Level entry)) +:+ middle
                  +:+ sgr colorNone +:+ final, err_nil)
    ∧ stamp = "[" +:+ timestamp_text (config true) entry +:+ "]"
    ∧ middle = " [" +:+ String.substring 0 4 (@level_upper _ logrus_names entry)
               +:+ "] " +:+ field_segment (config true) entry
    ∧ final = message_segment (config true) (Message entry)
              +:+ caller_segment (config true) entry +:+ String LF "".
Proof.
  intros config. do 3 eexists.
  split; [|split; [|split; [reflexivity|split; reflexivity]]].
  - rewrite Format_logrus_returns. unfold rendered_line, line_head, line_tail.
    cbn [NoColors config]. rewrite string_app_nil_r, string_app_nil_l.
    by rewrite !string_app_assoc.
  - rewrite Format_logrus_returns. unfold rendered_line, line_head, line_tail.
    cbn [NoColors config].
    rewrite (field_segment_config (config false) (config true)) by done.
    by rewrite !string_app_assoc.
Qed.

(** X9: the colour tells the group of the level: red exactly for Panic,
    Fatal and Error, yellow exactly for Warn, gray exactly for Debug and
    Trace, cyan for every other level; black, green, blue, magenta and the
    reset code are never the colour of a level. *)
Theorem colour_groups (level : logrus_Level) :
  (getColorByLevel level = colorRed ↔ (level ≤ ErrorLevel)%N)
  ∧ (getColorByLevel level = colorYellow ↔ level = WarnLevel)
  ∧ (getColorByLevel level = colorGray
     ↔ level = DebugLevel ∨ level = TraceLevel)
  ∧ (getColorByLevel level = colorCyan
     ↔ level = InfoLevel ∨ (TraceLevel < level)%N)
  ∧ getColorByLevel level ∈ [colorRed; colorYellow; colorCyan; colorGray].
Proof.
  unfold getColorByLevel, PanicLevel, FatalLevel, ErrorLevel, WarnLevel,
    InfoLevel, DebugLevel, TraceLevel, colorRed, colorYellow, colorGray,
    colorCyan.
  rewrite !elem_of_cons.
  destruct (N.eqb_spec level 5) as [->|?]; [simpl; lia|].
  destruct (N.eqb_spec level 6) as [->|?]; [simpl; lia|].
  destruct (N.eqb_spec level 3) as [->|?]; [simpl; lia|].
  destruct (N.eqb_spec level 2) as [->|?]; [simpl; lia|].
  destruct (N.eqb_spec level 1) as [->|?]; [simpl; lia|].
  destruct (N.eqb_spec level 0) as [->|?]; simpl; lia.
Qed.

(** ** Levels logrus does not know *)

(** X10: a level above Trace has the name [unknown] in logrus, so its tag
    is [UNKN] and its colour cyan: [Format] renders such a record like any
    other. *)
Theorem unknown_level_line `{Runtime} `{MapRange}
    (f : Formatter) (entry : Entry) :
  (TraceLevel < Level entry)%N →
  @Format _ _ logrus_names f entry
  = Returned
      ("[" +:+ timestamp_text f entry +:+ "]"
       +:+ (if NoColors f then "" else String ESC "[36m")
       +:+ " [UNKN] "
       +:+ field_segment f entry
       +:+ (if NoColors f then "" else String ESC "[0m")
       +:+ message_segment f (Message entry)
       +:+ caller_segment f entry +:+ String LF "", err_nil).
Proof.
  intros Hlevel. rewrite Format_logrus_returns.
  unfold rendered_line, line_head, line_tail, level_upper. simpl.
  assert (logrus_Level_String (Level entry) = "unknown") as ->.
  { unfold logrus_Level_String, TraceLevel, DebugLevel, InfoLevel, WarnLevel,
      ErrorLevel, FatalLevel, PanicLevel in *.
    by rewrite !(proj2 (N.eqb_neq (Level entry) _)) by lia. }
  assert (getColorByLevel (Level entry) = 36%Z) as ->.
  { unfold getColorByLevel, TraceLevel, DebugLevel, InfoLevel, WarnLevel,
      ErrorLevel, FatalLevel, PanicLevel in *.
    by rewrite !(proj2 (N.eqb_neq (Level entry) _)) by lia. }
  change (String.substring 0 4 (strings_ToUpper "unknown")) with "UNKN".
  change (sgr 36) with (String ESC "[36m").
  change (sgr colorNone) with (String ESC "[0m").
  by rewrite !string_app_assoc.
Qed.

Lemma unknown_level_line_witness :
  sample_Format
    {| FieldsOrder := None; TimestampFormat := ""; HideKeys := false;
       NoColors := true; DisableTrimMessages := false |}
    (sample_entry 42%N [] "odd" None)
  = Returned ("[10:30:00] [UNKN] odd" +:+ String LF "", err_nil).
Proof.
  unfold sample_Format.
  rewrite (@unknown_level_line sample_runtime trie_order).
  - vm_compute. reflexivity.
  - vm_compute. reflexivity.
Defined.

(** ** One line *)

Lemma string_of_uint_no_LF (d : Decimal.uint) :
  contains_byte LF (NilEmpty.string_of_uint d) = false.
Proof. induction d; simpl; unfold contains_byte in *; simpl; done. Qed.

Lemma fmt_d_no_LF (z : Z) : contains_byte LF (fmt_d z) = false.
Proof.
  unfold fmt_d, NilZero.string_of_int, NilZero.string_of_uint.
  destruct (Z.to_int z) as [d|d].
  - destruct d; try apply string_of_uint_no_LF. done.
  - change (String "-" ?s) with ("-" +:+ s).
    rewrite contains_byte_app.
    destruct d; try apply string_of_uint_no_LF. done.
Qed.

Lemma sgr_no_LF (n : Z) : contains_byte LF (sgr n) = false.
Proof. unfold sgr. by rewrite !contains_byte_app, fmt_d_no_LF. Qed.

Section single_line.
Context `{Runtime} `{MapRange}.
Implicit Types (f : Formatter) (entry : Entry).

Lemma logrus_tag_no_LF entry :
  contains_byte LF
    (String.substring 0 4 (@level_upper _ logrus_names entry)) = false.
Proof.
  destruct (logrus_level_tag (Level entry)) as [_ Htag].
  unfold level_upper. simpl.
  revert Htag.
  generalize (String.substring 0 4
                (strings_ToUpper (logrus_Level_String (Level entry)))).
  intros tag Htag.
  repeat (apply elem_of_cons in Htag as [->|Htag]; [done|]).
  by apply elem_of_nil in Htag.
Qed.

Lemma fields_text_no_LF f entry names :
  (∀ k, k ∈ names →
     contains_byte LF k = false
     ∧ contains_byte LF (fmt_v (Data_at entry k)) = false) →
  contains_byte LF (fields_text f entry names) = false.
Proof.
  induction names as [|k names IH]; intros Hclean; [done|].
  simpl. rewrite contains_byte_app.
  rewrite IH by (intros k' Hk'; apply Hclean; by right).
  destruct (Hclean k) as [Hk Hv]; [left|].
  unfold field_text.
  destruct (HideKeys f); rewrite !contains_byte_app, ?Hk, ?Hv; done.
Qed.

Lemma caller_segment_no_LF f entry :
  (∀ c, Caller entry = Some c →
     contains_byte LF (File c) = false
     ∧ contains_byte LF (Function c) = false) →
  contains_byte LF (caller_segment f entry) = false.
Proof.
  intros Hclean.
  destruct (caller_segment_cases f entry)
    as [[_ ->]|[_ (c & Hc & ->)]]; [done|].
  destruct (Hclean c Hc) as [Hfile Hfun].
  by rewrite !contains_byte_app, Hfile, Hfun, fmt_d_no_LF.
Qed.
End single_line.

(** X11: [Format] returns one line when its input has no line feed: if the
    formatted time stamp, the names and the printed values of the fields,
    the message text and the file and function of the caller are free of
    line feeds, the only line feed of the result is its last byte, with
    colours or without. *)
Theorem one_line_for_clean_input `{Runtime} `{MapRange}
    (f : Formatter) (entry : Entry) :
  contains_byte LF (timestamp_text f entry) = false →
  (∀ k v, Data entry !! k = Some v →
     contains_byte LF k = false ∧ contains_byte LF (fmt_v v) = false) →
  contains_byte LF (message_segment f (Message entry)) = false →
  (∀ c, Caller entry = Some c →
     contains_byte LF (File c) = false
     ∧ contains_byte LF (Function c) = false) →
  ∃ body, @Format _ _ logrus_names f entry
          = Returned (body +:+ String LF "", err_nil)
          ∧ contains_byte LF body = false.
Proof.
  intros Htime Hfields Hmsg Hcaller.
  rewrite Format_logrus_returns. unfold rendered_line, line_head, line_tail.
  exists ("[" +:+ timestamp_text f entry +:+ "]"
          +:+ (if NoColors f then "" else sgr (getColorByLevel (Level entry)))
          +:+ " [" +:+ String.substring 0 4 (@level_upper _ logrus_names entry)
          +:+ "]" +:+ " " +:+ field_segment f entry
          +:+ (if NoColors f then "" else sgr colorNone)
          +:+ message_segment f (Message entry) +:+ caller_segment f entry).
  split; [by rewrite !string_app_assoc|].
  destruct (field_segment_names f entry) as (names & -> & Hnames).
  rewrite !contains_byte_app, Htime, Hmsg, logrus_tag_no_LF.
  rewrite caller_segment_no_LF by done.
  rewrite fields_text_no_LF.
  - destruct (NoColors f); by rewrite ?sgr_no_LF.
  - intros k Hk. destruct (Hnames k Hk) as [v Hv].
    unfold Data_at. rewrite Hv. simpl. by apply Hfields.
Qed.

Lemma one_line_for_clean_input_witness :
  ∃ body,
    sample_Format default_Formatter
      (sample_entry WarnLevel [("id", VInt 42)] "disk full"
         (Some {| File := "main.go"; Line := 10; Function := "main" |}))
    = Returned (body +:+ String LF "", err_nil)
    ∧ contains_byte LF body = false.
Proof.
  apply (@one_line_for_clean_input sample_runtime trie_order).
  - vm_compute. reflexivity.
  - intros k v Hkv.
    destruct (decide (k = "id")) as [->|Hne].
    + vm_compute in Hkv. injection Hkv as <-. split; vm_compute; reflexivity.
    + unfold sample_entry in Hkv. simpl in Hkv.
      rewrite lookup_insert_ne in Hkv by done.
      by rewrite lookup_empty in Hkv.
  - vm_compute. reflexivity.
  - intros c Hc. injection Hc as <-. split; vm_compute; reflexivity.
Defined.

(** ** What the line keeps of the message *)




Lemma asciiSpace_is_ascii (c : ascii) :
  asciiSpace c = true → is_ascii_byte c = true.
Proof. by destruct c as [[] [] [] [] [] [] [] []]. Qed.

Lemma trim_scan_left_skip (pre s : string) :
  all_space pre = true → trim_scan_left (pre +:+ s) = trim_scan_left s.
Proof.
  induction pre as [|c pre IH]; intros Hpre; [done|].
  unfold all_space in *. simpl in Hpre. apply andb_prop in Hpre as [Hc Hpre].
  rewrite string_app_cons. cbn [trim_scan_left].
  rewrite (asciiSpace_is_ascii c Hc), Hc. simpl. by apply IH.
Qed.

Lemma trim_scan_right_all_space (post : string) :
  all_space post = true → trim_scan_right post = ("", false).
Proof.
  induction post as [|c post IH]; intros Hpost; [done|].
  unfold all_space in *. simpl in Hpost. apply andb_prop in Hpost as [Hc Hpost].
  cbn [trim_scan_right]. rewrite (IH Hpost).
  by rewrite (asciiSpace_is_ascii c Hc), Hc.
Qed.

Lemma trim_scan_right_skip (s post : string) :
  all_space post = true → trim_scan_right (s +:+ post) = trim_scan_right s.
Proof.
  intros Hpost. induction s as [|c s IH].
  - rewrite string_app_nil_l. by apply trim_scan_right_all_space.
  - rewrite string_app_cons. cbn [trim_scan_right]. by rewrite IH.
Qed.

(** White space around ASCII text does not change what [TrimSpace] gives. *)
Lemma strings_TrimSpace_pad (pre s post : string) :
  all_space pre = true → all_space post = true →
  string_forallb is_ascii_byte s = true →
  strings_TrimSpace (pre +:+ s +:+ post) = strings_TrimSpace s.
Proof.
  intros Hpre Hpost Hascii. unfold strings_TrimSpace.
  rewrite trim_scan_left_skip by done.
  destruct (trim_scan_left_ascii s Hascii)
    as (skipped & Heq & Hskipped & Hfast & Hrest & Hfirst).
  destruct (trim_scan_left s) as [rest slow] eqn:Hscan. simpl in *. subst slow.
  rewrite Heq, string_app_assoc, trim_scan_left_skip by done.
  destruct rest as [|c rest].
  - rewrite string_app_nil_l.
    rewrite <- (string_app_nil_r post), trim_scan_left_skip by done.
    simpl. done.
  - apply string_ascii_cons in Hrest as [Hc _].
    rewrite string_app_cons. cbn [trim_scan_left].
    rewrite Hc, (Hfirst c eq_refl). cbn [negb].
    change (String c (rest +:+ post)) with (String c rest +:+ post).
    by rewrite trim_scan_right_skip.
Qed.

(** X13: when messages are trimmed, ASCII white space before and after an
    ASCII message does not reach the line: the padded message gives the
    same result as the message itself, and a message of white space only
    the same as the empty message. *)
Theorem trimmed_message_ignores_padding `{Runtime} `{MapRange}
    (f : Formatter) (entry : Entry) (pre msg post : string) :
  DisableTrimMessages f = false →
  all_space pre = true → all_space post = true →
  string_forallb is_ascii_byte msg = true →
  @Format _ _ logrus_names f (with_Message (pre +:+ msg +:+ post) entry)
  = @Format _ _ logrus_names f (with_Message msg entry)
  ∧ @Format _ _ logrus_names f (with_Message pre entry)
    = @Format _ _ logrus_names f (with_Message "" entry).
Proof.
  intros Htrim Hpre Hpost Hascii. rewrite !Format_logrus_returns.
  unfold rendered_line, message_segment. rewrite Htrim. simpl.
  rewrite strings_TrimSpace_pad by done.
  split; [done|].
  assert (strings_TrimSpace (pre +:+ "" +:+ "") = strings_TrimSpace "") as Hp
    by (by apply strings_TrimSpace_pad).
  rewrite string_app_nil_l, string_app_nil_r in Hp. by rewrite Hp.
Qed.

Lemma trimmed_message_ignores_padding_witness :
  sample_Format default_Formatter (sample_entry InfoLevel [] "  up " None)
  = sample_Format default_Formatter (sample_entry InfoLevel [] "up" None).
Proof.
  apply (proj1 (@trimmed_message_ignores_padding sample_runtime trie_order
                  default_Formatter (sample_entry InfoLevel [] "" None)
                  "  " "up" " " eq_refl eq_refl eq_refl eq_refl)).
Defined.

(** ** The order in which the map is visited *)

(** X14: the result of [Format] does not depend on the order in which Go
    visits the fields of the record, with an order list or without: the
    names collected from the map are sorted before they are printed. *)
Theorem map_order_is_irrelevant `{Runtime} (M1 M2 : MapRange) `{LevelStringer}
    (f : Formatter) (entry : Entry) :
  @field_segment _ M1 f entry = @field_segment _ M2 f entry
  ∧ @Format _ M1 _ f entry = @Format _ M2 _ f entry.
Proof.
  assert (@field_segment _ M1 f entry = @field_segment _ M2 f entry) as Hseg.
  { unfold field_segment. destruct (FieldsOrder f) as [order|] eqn:E.
    - rewrite !writeOrderedFields_text, E. simpl. do 3 f_equal.
      case_decide; [|done]. unfold remaining_fields.
      apply sort_Strings_unique.
      by rewrite (range_keys_Permutation M1 M2).
    - rewrite !writeFields_text. do 2 f_equal.
      apply sort_Strings_unique, range_keys_Permutation. }
  split; [done|].
  destruct (decide (4 ≤ String.length (level_upper entry))) as [Hlen|Hlen].
  - rewrite !Format_returns by done. unfold rendered_line, line_head.
    by rewrite Hseg.
  - by rewrite !Format_panics by lia.
Qed.
